(** * Meesho Price Optimization Suite: variant synthesis, store and export

    A shallow embedding of [services/imageService.ts] (the revision with
    market cloaking), of the component state machine in
    [components/SynthesizerModule.tsx] ([handleGenerate],
    [downloadBatchSequentially]) and of the record types of [types.ts].

    Conventions of the embedding.
    - A JavaScript [number] is an exact rational ([Q]); the rounding of IEEE
      doubles is not modelled.  Values the platform keeps integral (image and
      canvas sizes, the bytes of an [ImageData], [Date.now()]) are [N] or [Z].
    - [Math.random()], [Date.now()], the outcome of an IndexedDB request and
      the browser's painting primitives are read from an environment [Env].
    - An [async] function is a computation in the monad [Task]: it threads the
      mutable state [State] and either resolves with a value or rejects. *)

From Stdlib Require Import ZArith QArith Qround Qabs Lqa Lia Ascii String.
From Stdlib Require Import Sorted.
From stdpp Require Import base decidable option list strings pretty gmap fin_maps.

Local Open Scope Q_scope.

(** ** JavaScript numbers *)

Module JsNum.

(** [Math.floor]. *)
Definition Math_floor (x : Q) : Z := Qfloor x.

(** [Math.round]: the nearest integer, halves going up. *)
Definition Math_round (x : Q) : Z := Qfloor (x + (1 # 2)).

(** [Math.max] and [Math.min] on two numbers. *)
Definition Math_max (a b : Q) : Q := if Qlt_le_dec a b then b else a.
Definition Math_min (a b : Q) : Q := if Qlt_le_dec b a then b else a.

(** [Math.PI], the double 0x400921FB54442D18. *)
Definition Math_PI : Q := 884279719003555 # 281474976710656.

(** ECMAScript [ToUint8Clamp], applied by every store into a
    [Uint8ClampedArray]: clamp to 0..255, round to nearest, ties to even. *)
Definition ToUint8Clamp (x : Q) : Z :=
  if Qlt_le_dec 0 x then
    if Qlt_le_dec x 255 then
      let f := Qfloor x in
      match Qcompare (inject_Z f + (1 # 2)) x with
      | Lt => (f + 1)%Z
      | Gt => f
      | Eq => if Z.even f then f else (f + 1)%Z
      end
    else 255%Z
  else 0%Z.

(** Truncation toward zero. *)
Definition Qtruncate (x : Q) : Z :=
  if Qlt_le_dec x 0 then Qceiling x else Qfloor x.

(** WebIDL conversion of a number to [unsigned long], applied by the setters
    of [canvas.width] and [canvas.height]: truncate, then reduce modulo 2^32. *)
Definition toUnsignedLong (x : Q) : N :=
  Z.to_N (Qtruncate x mod 2 ^ 32).

(** Truthiness of an optional number in [v || d]: [undefined] and [0] are
    falsy. *)
Definition orNumber (v : option Q) (d : Q) : Q :=
  match v with
  | Some q => if Qeq_bool q 0 then d else q
  | None => d
  end.

(** An unsigned integer as a number. *)
Definition ofN (n : N) : Q := inject_Z (Z.of_N n).
Definition ofNat (n : nat) : Q := inject_Z (Z.of_nat n).

End JsNum.

(** ** JavaScript strings *)

Module JsString.

(** [s.split(sep)] for a one-character separator: one more segment than there
    are separators in [s]. *)
Fixpoint split (sep : ascii) (s : string) : list string :=
  match s with
  | EmptyString => [EmptyString]
  | String c s' =>
      if decide (c = sep) then EmptyString :: split sep s'
      else match split sep s' with
           | seg :: segs => String c seg :: segs
           | [] => [String c EmptyString]
           end
  end.

(** [arr.pop()] read-only: the last element, [undefined] on an empty array. *)
Definition pop (segs : list string) : option string := last segs.

(** Interpolation [${x}] of a possibly undefined string. *)
Definition interpolate (x : option string) : string := default "undefined" x.

(** Whether character [c] occurs in [s]. *)
Fixpoint occurs (c : ascii) (s : string) : bool :=
  match s with
  | EmptyString => false
  | String d s' => if decide (d = c) then true else occurs c s'
  end.

(** [s.endsWith(suffix)]. *)
Definition endsWith (s suffix : string) : Prop := exists p, s = p +:+ suffix.

(** A string is truthy when it is not empty. *)
Definition truthy (s : string) : bool :=
  match s with EmptyString => false | _ => true end.

End JsString.

(** ** Data model ([types.ts]) *)

Inductive ExportFormat := image_jpeg | image_png.

Inductive Status := pending | processing | completed | failed.

Global Instance ExportFormat_eq_dec : EqDecision ExportFormat.
Proof. solve_decision. Defined.

Global Instance Status_eq_dec : EqDecision Status.
Proof. solve_decision. Defined.

(** [fontFamily] and [color] are read out of the constant tables by a computed
    index; [None] is the [undefined] such a read yields out of range. *)
Module OverlayConfig.
Record t := mk {
  text : string;
  fontFamily : option string;
  fontSize : Q;
  color : option string;
  x : Q;
  y : Q;
  rotation : Q;
  batchNumber : option string;
  showDate : option bool;
  textureIntensity : option Q;
  exportFormat : option ExportFormat;
  upscaleFactor : option Q;
  opacity : option Q
}.
End OverlayConfig.

Module ImageVariant.
Record t := mk {
  id : string;
  dataUrl : string;
  blobUrl : option string;
  config : OverlayConfig.t;
  detectedPrice : option Q;
  detectedShipping : option Q;
  status : Status;
  errorMessage : option string;
  timestamp : option Z;
  tags : option (list string)
}.
End ImageVariant.

(** The [options] argument of [generateVariant]; [empty] is its default [{}]. *)
Module Options.
Record t := mk {
  batchNumber : option string;
  showDate : option bool;
  textureIntensity : option Q;
  exportFormat : option ExportFormat;
  upscaleFactor : option Q;
  opacity : option Q;
  tags : option (list string);
  marketCloaking : option bool
}.
Definition empty : t := mk None None None None None None None None.
End Options.

(** The part of an [HTMLImageElement] the pipeline reads; [width] and [height]
    are [unsigned long]. *)
Module HTMLImageElement.
Record t := mk { width : N; height : N; src : string }.
End HTMLImageElement.

(** ** Environment, state and tasks *)

(** The affine jitter of step 1. *)
Record Jitter := mkJitter {
  zoom : Q; offsetX : Q; offsetY : Q; microRotation : Q
}.

Inductive DbFault := OpenFailed | TransactionFailed.

Inductive Error :=
| CanvasContextMissing          (* 'Could not get canvas context' *)
| DbError (f : DbFault)         (* request.error / transaction.error *)
| ImageLoadFailed.              (* img.onerror *)

(** What a run observes, in order.  [GenerateVariantCalled] and [StorePut] are
    ghost events marking an entry into [generateVariant] and a completed put
    transaction; the others are the component's state setters, its callbacks
    and the browser download it triggers. *)
Inductive Event :=
| GenerateVariantCalled (id : string)
| StorePut (id : string)
| StoreCleared
| SetIsGenerating (b : bool)
| SetProgress (p : Q)
| OnVariantsGenerated (vs : list ImageVariant.t) (autoNavigate : bool)
| ConsoleError (e : Error)
| SetIsBatchDownloading (b : bool)
| SetExportProgress (p : Q)
| Download (href filename : string)
| DownloadBlob (content filename : string)
| SetLastBatch (vs : list ImageVariant.t)
| SetVariants (vs : list ImageVariant.t).

(** [FONTS] and [COLORS] come from [constants.ts], which is not part of the
    sources at hand: they are parameters.  The painting primitives of the 2D
    context and the encoder behind [toDataURL] are parameters as well; a bitmap
    is the byte array [getImageData] returns (R, G, B, A per pixel).
    [numberToString] is the conversion of a number to a string. *)
Record Env := mkEnv {
  Math_random_at : nat -> Q;
  Date_now_at : nat -> Z;
  canvasContext : nat -> bool;
  dbFault : nat -> option DbFault;
  FONTS : list string;
  COLORS : list string;
  imageAt : string -> option HTMLImageElement.t;
  paintImage : HTMLImageElement.t -> N -> N -> option Jitter -> list Z;
  paintFiltered : Q -> Q -> Q -> list Z -> list Z;
  paintText : OverlayConfig.t -> list Z -> list Z;
  encode : ExportFormat -> Q -> N -> N -> list Z -> string;
  numberToString : Q -> string
}.

(** [objectStore] is the IndexedDB object store 'ImageVariants', created with
    [keyPath: 'id']: a finite map from the id to the stored variant. *)
Record State := mkState {
  drawn : nat;
  ticks : nat;
  canvases : nat;
  dbOps : nat;
  objectStore : gmap string ImageVariant.t;
  trace : list Event
}.

Inductive Outcome (A : Type) :=
| Resolved (a : A)
| Rejected (e : Error).
Arguments Resolved {A} a.
Arguments Rejected {A} e.

Definition Task (A : Type) : Type := Env -> State -> Outcome A * State.

Definition ret {A} (a : A) : Task A :=
  fun _ st => (Resolved a, st).

(** [await m] followed by the continuation [k]: a rejection skips [k]. *)
Definition bind {A B} (m : Task A) (k : A -> Task B) : Task B :=
  fun env st =>
    match m env st with
    | (Resolved a, st') => k a env st'
    | (Rejected e, st') => (Rejected e, st')
    end.

Declare Scope task_scope.
Delimit Scope task_scope with task.
Bind Scope task_scope with Task.
Notation "x <- m ;; k" := (bind m (fun x => k))
  (at level 100, m at next level, right associativity) : task_scope.
Notation "m ;; k" := (bind m (fun _ => k))
  (at level 100, right associativity) : task_scope.
Local Open Scope task_scope.

Definition throw {A} (e : Error) : Task A :=
  fun _ st => (Rejected e, st).

(** [try { body } catch (e) { handler e }]. *)
Definition try_catch {A} (body : Task A) (handler : Error -> Task A) : Task A :=
  fun env st =>
    match body env st with
    | (Resolved a, st') => (Resolved a, st')
    | (Rejected e, st') => handler e env st'
    end.

(** [try { body } finally { fin }]. *)
Definition try_finally {A} (body : Task A) (fin : Task unit) : Task A :=
  fun env st =>
    match body env st with
    | (r, st') =>
        match fin env st' with
        | (Resolved _, st'') => (r, st'')
        | (Rejected e, st'') => (Rejected e, st'')
        end
    end.

Definition ask : Task Env := fun env st => (Resolved env, st).

Definition emit (e : Event) : Task unit :=
  fun _ st =>
    (Resolved tt,
     mkState (drawn st) (ticks st) (canvases st) (dbOps st) (objectStore st)
             (trace st ++ [e])).

(** [Math.random()]. *)
Definition Math_random : Task Q :=
  fun env st =>
    (Resolved (Math_random_at env (drawn st)),
     mkState (S (drawn st)) (ticks st) (canvases st) (dbOps st) (objectStore st)
             (trace st)).

(** [Date.now()]. *)
Definition Date_now : Task Z :=
  fun env st =>
    (Resolved (Date_now_at env (ticks st)),
     mkState (drawn st) (S (ticks st)) (canvases st) (dbOps st) (objectStore st)
             (trace st)).

(** [document.createElement('canvas').getContext('2d')]: whether a context was
    obtained. *)
Definition getContext : Task bool :=
  fun env st =>
    (Resolved (canvasContext env (canvases st)),
     mkState (drawn st) (ticks st) (S (canvases st)) (dbOps st) (objectStore st)
             (trace st)).

(** The fate of the next database request. *)
Definition nextDbFault : Task (option DbFault) :=
  fun env st =>
    (Resolved (dbFault env (dbOps st)),
     mkState (drawn st) (ticks st) (canvases st) (S (dbOps st)) (objectStore st)
             (trace st)).

Definition updateStore (f : gmap string ImageVariant.t -> gmap string ImageVariant.t)
  : Task unit :=
  fun _ st =>
    (Resolved tt,
     mkState (drawn st) (ticks st) (canvases st) (dbOps st) (f (objectStore st))
             (trace st)).

Definition readStore : Task (gmap string ImageVariant.t) :=
  fun _ st => (Resolved (objectStore st), st).

(** ** Persistent storage ([imageService.ts], IndexedDB) *)

(** [getDB]: [indexedDB.open] fires [onerror] or [onsuccess]. *)
Definition getDB (fault : option DbFault) : Task unit :=
  match fault with
  | Some OpenFailed => throw (DbError OpenFailed)
  | _ => ret tt
  end.

(** [saveVariantToDB]: [store.put(variant)] in a readwrite transaction.  A
    transaction that errors is aborted and leaves the store as it was. *)
Definition saveVariantToDB (variant : ImageVariant.t) : Task bool :=
  fault <- nextDbFault;;
  getDB fault;;
  match fault with
  | Some f => throw (DbError f)
  | None =>
      updateStore (fun m => <[ImageVariant.id variant := variant]> m);;
      emit (StorePut (ImageVariant.id variant));;
      ret true
  end.

(** [getAllVariantsFromDB]: [store.getAll()], every stored value.  The order
    of the result is that of the map's enumeration; callers re-sort. *)
Definition getAllVariantsFromDB : Task (list ImageVariant.t) :=
  fault <- nextDbFault;;
  getDB fault;;
  match fault with
  | Some f => throw (DbError f)
  | None =>
      m <- readStore;;
      ret ((map_to_list m).*2)
  end.

(** [clearAllVariantsFromDB]: [store.clear()]. *)
Definition clearAllVariantsFromDB : Task bool :=
  fault <- nextDbFault;;
  getDB fault;;
  match fault with
  | Some f => throw (DbError f)
  | None =>
      updateStore (fun _ => ∅);;
      emit StoreCleared;;
      ret true
  end.

(** ** Adversarial image generation ([generateVariant]) *)

Import JsNum.

(** A flag [options.f] used as a condition: [undefined] is falsy. *)
Definition flag (b : option bool) : bool := default false b.

(** Step 1, geometric jitter: the bitmap after the source image was drawn,
    under a random affine transform when cloaking is on. *)
Definition geometricJitter (baseImage : HTMLImageElement.t) (options : Options.t)
    (width height : N) : Task (list Z) :=
  env <- ask;;
  if flag (Options.marketCloaking options) then
    r1 <- Math_random;;
    let zoom := 1 + r1 * 0.03 in
    r2 <- Math_random;;
    let offsetX := (r2 - 0.5) * (ofN width * 0.02) in
    r3 <- Math_random;;
    let offsetY := (r3 - 0.5) * (ofN height * 0.02) in
    r4 <- Math_random;;
    let microRotation := (r4 - 0.5) * 0.005 in
    ret (paintImage env baseImage width height
            (Some (mkJitter zoom offsetX offsetY microRotation)))
  else
    ret (paintImage env baseImage width height None).

(** Step 2, chromatic shifting: the canvas is copied to a temporary canvas,
    cleared, and the copy drawn back through the colour filter.  The copy is
    made only if the temporary canvas yields a context ([?.]); without one the
    temporary canvas stays transparent black. *)
Definition chromaticShift (options : Options.t) (bitmap : list Z) : Task (list Z) :=
  if flag (Options.marketCloaking options) then
    r1 <- Math_random;;
    let hue := (r1 - 0.5) * 4 in
    r2 <- Math_random;;
    let brightness := 1 + (r2 - 0.5) * 0.04 in
    r3 <- Math_random;;
    let contrast := 1 + (r3 - 0.5) * 0.04 in
    env <- ask;;
    tempCtx <- getContext;;
    let tempCanvas := if tempCtx then bitmap else replicate (length bitmap) 0%Z in
    ret (paintFiltered env hue brightness contrast tempCanvas)
  else
    ret bitmap.

(** [data[i] = Math.min(255, Math.max(0, data[i] + noise))].  A read past the
    end is [undefined], the sum is [NaN], and the store past the end of a
    typed array is dropped. *)
Definition jitterChannel (data : list Z) (i : nat) (noise : Q) : list Z :=
  match data !! i with
  | Some c =>
      <[i := ToUint8Clamp (Math_min 255 (Math_max 0 (inject_Z c + noise)))]> data
  | None => data
  end.

(** The loop [for (let i = 0; i < data.length; i += 4)] of step 3, entered at
    index [i]; [fuel] bounds the number of iterations. *)
Fixpoint noiseLoop (fuel : nat) (noiseLevel : Q) (i : nat) (data : list Z)
  : Task (list Z) :=
  match fuel with
  | O => ret data
  | S fuel' =>
      if decide (i < length data)%nat then
        r <- Math_random;;
        let noise := (r - 0.5) * (noiseLevel * 15) in
        let data := jitterChannel data i noise in
        let data := jitterChannel data (i + 1) noise in
        let data := jitterChannel data (i + 2) noise in
        data <- (if decide (i mod 100 = 0)%nat then
                  a <- Math_random;;
                  ret (<[(i + 3)%nat :=
                           ToUint8Clamp (inject_Z (254 + Math_round a))]> data)
                else ret data);;
        noiseLoop fuel' noiseLevel (i + 4) data
      else ret data
  end.

(** Step 3, noise and textural interference, on the bytes of
    [ctx.getImageData(0, 0, canvas.width, canvas.height)]. *)
Definition noiseStage (options : Options.t) (data : list Z) : Task (list Z) :=
  let noiseLevel := orNumber (Options.textureIntensity options) 0.05 in
  noiseLoop (length data) noiseLevel 0 data.

(** [table[i]] for a computed integer index. *)
Definition tableAt (table : list string) (i : Z) : option string :=
  if decide (i < 0)%Z then None else table !! Z.to_nat i.

(** Step 4, the resolved overlay configuration. *)
Definition overlayConfig (baseImage : HTMLImageElement.t) (productName : string)
    (options : Options.t) (scale : Q) : Task OverlayConfig.t :=
  env <- ask;;
  rFont <- Math_random;;
  rSize <- Math_random;;
  rColor <- Math_random;;
  rX <- Math_random;;
  rY <- Math_random;;
  rRot <- Math_random;;
  let w := ofN (HTMLImageElement.width baseImage) in
  let h := ofN (HTMLImageElement.height baseImage) in
  ret {|
    OverlayConfig.text := productName;
    OverlayConfig.fontFamily :=
      tableAt (FONTS env) (Math_floor (rFont * ofNat (length (FONTS env))));
    OverlayConfig.fontSize := (rSize * 0.4 + 0.4) * scale * 30;
    OverlayConfig.color :=
      tableAt (COLORS env) (Math_floor (rColor * ofNat (length (COLORS env))));
    OverlayConfig.x := (rX * (w * 0.8) + (w * 0.1)) * scale;
    OverlayConfig.y := (rY * (h * 0.8) + (h * 0.1)) * scale;
    OverlayConfig.rotation := rRot * Math_PI * 2;
    OverlayConfig.batchNumber := Options.batchNumber options;
    OverlayConfig.showDate := Options.showDate options;
    OverlayConfig.textureIntensity := Options.textureIntensity options;
    OverlayConfig.exportFormat :=
      Some (default image_jpeg (Options.exportFormat options));
    OverlayConfig.upscaleFactor := Some scale;
    OverlayConfig.opacity := Some (default 0.03 (Options.opacity options))
  |}.

(** The canvas size of [generateVariant]:
    [canvas.width = baseImage.width * scale], likewise the height. *)
Definition canvasScale (options : Options.t) : Q :=
  orNumber (Options.upscaleFactor options) 1.

Definition canvasWidth (baseImage : HTMLImageElement.t) (options : Options.t) : N :=
  toUnsignedLong (ofN (HTMLImageElement.width baseImage) * canvasScale options).

Definition canvasHeight (baseImage : HTMLImageElement.t) (options : Options.t) : N :=
  toUnsignedLong (ofN (HTMLImageElement.height baseImage) * canvasScale options).

(** The bitmap the canvas holds when it is encoded (steps 1 to 4 and the
    overlay text). *)
Definition renderBitmap (baseImage : HTMLImageElement.t) (productName : string)
    (options : Options.t) : Task (OverlayConfig.t * list Z) :=
  env <- ask;;
  bitmap <- geometricJitter baseImage options
              (canvasWidth baseImage options) (canvasHeight baseImage options);;
  bitmap <- chromaticShift options bitmap;;
  data <- noiseStage options bitmap;;
  config <- overlayConfig baseImage productName options (canvasScale options);;
  ret (config, paintText env config data).

Definition generateVariant (baseImage : HTMLImageElement.t)
    (productName id : string) (options : Options.t) : Task ImageVariant.t :=
  emit (GenerateVariantCalled id);;
  ctx <- getContext;;
  if negb ctx then throw CanvasContextMissing else
  env <- ask;;
  rendered <- renderBitmap baseImage productName options;;
  let '(config, bitmap) := rendered in
  (* Step 5: export with unique quantization *)
  let format := default image_jpeg (Options.exportFormat options) in
  rQuality <- Math_random;;
  let quality := 0.88 + (rQuality * 0.05) in
  let dataUrl :=
    encode env format quality
      (canvasWidth baseImage options) (canvasHeight baseImage options) bitmap in
  now <- Date_now;;
  let variant := {|
    ImageVariant.id := id;
    ImageVariant.dataUrl := dataUrl;
    ImageVariant.blobUrl := Some dataUrl;
    ImageVariant.config := config;
    ImageVariant.detectedPrice := None;
    ImageVariant.detectedShipping := None;
    ImageVariant.status := pending;
    ImageVariant.errorMessage := None;
    ImageVariant.timestamp := Some now;
    ImageVariant.tags := Options.tags options
  |} in
  saveVariantToDB variant;;
  ret variant.

(** [loadImage]: resolves with the decoded image, rejects on [onerror]. *)
Definition loadImage (url : string) : Task HTMLImageElement.t :=
  env <- ask;;
  match imageAt env url with
  | Some img => ret img
  | None => throw ImageLoadFailed
  end.

(** ** File names of exported variants *)

Import JsString.

(** [v.id.split('-').pop()], as interpolated into a file name. *)
Definition shortId (v : ImageVariant.t) : string :=
  interpolate (pop (split "-" (ImageVariant.id v))).

(** [v.config.exportFormat === 'image/png' ? 'png' : 'jpg']. *)
Definition ext (v : ImageVariant.t) : string :=
  if decide (OverlayConfig.exportFormat (ImageVariant.config v) = Some image_png)
  then "png" else "jpg".

(** The file name [downloadBatchSequentially] saves a variant under. *)
Definition batchFilename (v : ImageVariant.t) : string :=
  "cloaked-asset-" +:+ shortId v +:+ "." +:+ ext v.

(** The file name [exportToCSV] lists a variant under. *)
Definition csvFilename (v : ImageVariant.t) : string :=
  "cloaked_opt_" +:+ shortId v +:+ "." +:+ ext v.

(** The file name of the per-tile button "Download Single":
    [`v-${v.id.slice(-4)}.jpg`]. *)
Definition lastChars (n : nat) (s : string) : string :=
  String.substring (String.length s - n) n s.

Definition singleFilename (v : ImageVariant.t) : string :=
  "v-" +:+ lastChars 4 (ImageVariant.id v) +:+ ".jpg".

(** [downloadImage]: a click on a temporary anchor, nothing for an empty URL. *)
Definition downloadImage (dataUrl filename : string) : Task unit :=
  if truthy dataUrl then emit (Download dataUrl filename) else ret tt.

(** ** CSV export ([exportToCSV]) *)

Definition csvHeaders : list string :=
  ["Amazon Link Ref"; "Flipkart Link Ref"; "Meesho Link Ref"; "Local Filename";
   "Product Title"; "Batch Code"; "Optimized Price"; "Shipping Fee"; "Keywords";
   "Variant UUID"]%string.

Definition csvRow (env : Env) (v : ImageVariant.t) : list string :=
  let filename := csvFilename v in
  [ "cdn://" +:+ filename; "cdn://" +:+ filename; "cdn://" +:+ filename;
    filename;
    OverlayConfig.text (ImageVariant.config v);
    match OverlayConfig.batchNumber (ImageVariant.config v) with
    | Some b => if truthy b then b else "N/A"
    | None => "N/A"
    end;
    match ImageVariant.detectedPrice v with
    | Some p => if Qeq_bool p 0 then "N/A" else numberToString env p
    | None => "N/A"
    end;
    match ImageVariant.detectedShipping v with
    | Some p => numberToString env p
    | None => "N/A"
    end;
    match ImageVariant.tags v with
    | Some ts => String.concat "; " ts
    | None => EmptyString
    end;
    ImageVariant.id v ]%string.

(** The double-quote character wrapped around every cell. *)
Definition quote : string := String (ascii_of_nat 34) EmptyString.

Definition csvContent (env : Env) (variants : list ImageVariant.t) : string :=
  String.concat (String "010"%char EmptyString)
    (String.concat "," csvHeaders ::
     map (fun row =>
            String.concat "," (map (fun cell => quote +:+ cell +:+ quote) row))
         (map (csvRow env) variants)).

Definition exportToCSV (variants : list ImageVariant.t) : Task unit :=
  env <- ask;;
  now <- Date_now;;
  emit (DownloadBlob (csvContent env variants)
          ("listing_batch_" +:+ pretty now +:+ ".csv")).

(** ** The synthesizer component ([SynthesizerModule.tsx]) *)

(** The component's React state as the handlers read it. *)
Module Synthesizer.
Record t := mk {
  baseImage : option string;
  productName : string;
  variantCount : Q;
  batchNumber : string;
  showDate : bool;
  textureIntensity : Q;
  opacity : Q;
  marketCloaking : bool;
  autoNavigate : bool;
  clearAfterDownload : bool;
  tags : list string;
  exportFormat : ExportFormat;
  upscaleFactor : Q;
  lastBatch : list ImageVariant.t;
  isBatchDownloading : bool
}.

(** The state a freshly mounted component starts from, given the batch number
    drawn at mount. *)
Definition initial (batch : string) : t :=
  mk None EmptyString 10 batch true 0.08 0.04 true false false [] image_jpeg 1
     [] false.
End Synthesizer.

(** The options [handleGenerate] passes to every [generateVariant] call. *)
Definition variantOptions (c : Synthesizer.t) : Options.t := {|
  Options.batchNumber := Some (Synthesizer.batchNumber c);
  Options.showDate := Some (Synthesizer.showDate c);
  Options.textureIntensity := Some (Synthesizer.textureIntensity c);
  Options.opacity := Some (Synthesizer.opacity c);
  Options.exportFormat := Some (Synthesizer.exportFormat c);
  Options.upscaleFactor := Some (Synthesizer.upscaleFactor c);
  Options.tags := Some (Synthesizer.tags c);
  Options.marketCloaking := Some (Synthesizer.marketCloaking c)
|}.

(** The id of the [i]-th variant of a run: [`cloaked-${Date.now()}-${i}`]. *)
Definition variantId (now : Z) (i : nat) : string :=
  "cloaked-" +:+ pretty now +:+ "-" +:+ pretty i.

(** The progress reported once item [i] is done:
    [((i + 1) / variantCount) * 100]. *)
Definition progressAfter (variantCount : Q) (i : nat) : Q :=
  (ofNat (i + 1) / variantCount) * 100.

(** The loop [for (let i = 0; i < variantCount; i++)] of [handleGenerate],
    entered at [i] with the variants pushed so far; [fuel] bounds the number
    of iterations.  The 10 ms pause that ends an iteration is not modelled. *)
Fixpoint generateLoop (fuel : nat) (c : Synthesizer.t) (img : HTMLImageElement.t)
    (i : nat) (newVariants : list ImageVariant.t) : Task (list ImageVariant.t) :=
  match fuel with
  | O => ret newVariants
  | S fuel' =>
      if Qlt_le_dec (ofNat i) (Synthesizer.variantCount c) then
        now <- Date_now;;
        variant <- generateVariant img (Synthesizer.productName c)
                     (variantId now i) (variantOptions c);;
        let newVariants := newVariants ++ [variant] in
        emit (SetProgress (progressAfter (Synthesizer.variantCount c) i));;
        generateLoop fuel' c img (i + 1) newVariants
      else ret newVariants
  end.

(** The number of iterations of that loop: the least integer not below
    [variantCount], none when it is not positive. *)
Definition tripCount (variantCount : Q) : nat := Z.to_nat (Qceiling variantCount).

Definition handleGenerate (c : Synthesizer.t) : Task unit :=
  match Synthesizer.baseImage c with
  | None => ret tt
  | Some baseImage =>
      if negb (truthy baseImage) || negb (truthy (Synthesizer.productName c))
      then ret tt
      else
        emit (SetIsGenerating true);;
        emit (SetProgress 0);;
        try_finally
          (try_catch
             (img <- loadImage baseImage;;
              newVariants <- generateLoop (tripCount (Synthesizer.variantCount c))
                               c img 0 [];;
              emit (OnVariantsGenerated newVariants (Synthesizer.autoNavigate c)))
             (fun error => emit (ConsoleError error)))
          (emit (SetIsGenerating false))
  end.

(** [App.handleClearHistory], the [onClearHistory] prop. *)
Definition handleClearHistory : Task bool :=
  try_catch
    (clearAllVariantsFromDB;;
     emit (SetVariants []);;
     ret true)
    (fun err => emit (ConsoleError err);; ret false).

(** The loop of [downloadBatchSequentially], entered at index [i]; the 600 ms
    pause between two items is not modelled. *)
Fixpoint downloadLoop (fuel : nat) (lastBatch : list ImageVariant.t) (i : nat)
  : Task unit :=
  match fuel with
  | O => ret tt
  | S fuel' =>
      match lastBatch !! i with
      | Some v =>
          emit (SetExportProgress
                  ((ofNat (i + 1) / ofNat (length lastBatch)) * 100));;
          downloadImage (ImageVariant.dataUrl v) (batchFilename v);;
          downloadLoop fuel' lastBatch (i + 1)
      | None => ret tt
      end
  end.

Definition downloadBatchSequentially (c : Synthesizer.t)
    (onClearHistory : Task bool) : Task unit :=
  let lastBatch := Synthesizer.lastBatch c in
  if (length lastBatch =? 0)%nat || Synthesizer.isBatchDownloading c then ret tt
  else
    emit (SetIsBatchDownloading true);;
    try_finally
      (downloadLoop (length lastBatch) lastBatch 0;;
       if Synthesizer.clearAfterDownload c then
         emit (SetLastBatch []);;
         onClearHistory;;
         ret tt
       else ret tt)
      (emit (SetIsBatchDownloading false);;
       emit (SetExportProgress 0)).

(** ** A concrete environment

    Used to run the model on examples: constant entropy [rnd], a clock that
    starts at [t0] and advances by one per reading, an opaque white source
    image of 2 x 1 pixels behind every URL, painting primitives that leave the
    bitmap alone, and the database faults [faults]. *)
Definition sampleImage : HTMLImageElement.t :=
  HTMLImageElement.mk 2 1 "data:image/png;base64,AAAA".

Definition sampleEnv (rnd : Q) (faults : nat -> option DbFault) : Env := {|
  Math_random_at := fun _ => rnd;
  Date_now_at := fun k => (1700000000000 + Z.of_nat k)%Z;
  canvasContext := fun _ => true;
  dbFault := faults;
  FONTS := ["Arial"; "Georgia"]%string;
  COLORS := ["#ffffff"; "#000000"]%string;
  imageAt := fun _ => Some sampleImage;
  paintImage := fun _ w h _ => replicate (4 * N.to_nat w * N.to_nat h) 255%Z;
  paintFiltered := fun _ _ _ bitmap => bitmap;
  paintText := fun _ bitmap => bitmap;
  encode := fun format _ w h _ =>
    (match format with image_jpeg => "data:image/jpeg;" | image_png => "data:image/png;" end
     +:+ pretty w +:+ "x" +:+ pretty h)%string;
  numberToString := fun q => pretty (Qfloor q)
|}.

Definition noFaults : nat -> option DbFault := fun _ => None.

Definition initialState : State := mkState 0 0 0 0 ∅ [].

Definition sampleComponent (count : Q) : Synthesizer.t :=
  Synthesizer.mk (Some "data:image/png;base64,AAAA") "Saree" count "B-1234" true
    0.08 0.04 true false false ["Silk"]%string image_jpeg 1 [] false.

(** * Vocabulary of the properties *)

(** Two states with the same object store, the same trace and the same count
    of database requests. *)
Definition sameDb (st st' : State) : Prop :=
  objectStore st' = objectStore st /\ trace st' = trace st /\ dbOps st' = dbOps st.

(** [quietly env m P]: run in [env] from any state, [m] resolves with a value
    satisfying [P] and leaves the object store, the trace and the count of
    database requests as they were. *)
Definition quietly {A} (env : Env) (m : Task A) (P : A -> Prop) : Prop :=
  forall st, exists a st', m env st = (Resolved a, st') /\ P a /\ sameDb st st'.

(** The fields of the resolved configuration that are copied from the
    arguments. *)
Definition resolvedFrom (productName : string) (opts : Options.t) (scale : Q)
    (config : OverlayConfig.t) : Prop :=
  OverlayConfig.text config = productName /\
  OverlayConfig.opacity config = Some (default 0.03 (Options.opacity opts)) /\
  OverlayConfig.exportFormat config
    = Some (default image_jpeg (Options.exportFormat opts)) /\
  OverlayConfig.upscaleFactor config = Some scale /\
  OverlayConfig.textureIntensity config = Options.textureIntensity opts /\
  OverlayConfig.batchNumber config = Options.batchNumber opts /\
  OverlayConfig.showDate config = Options.showDate opts.

(** The variant [generateVariant] assembles from the rendered canvas. *)
Definition assembled (env : Env) (img : HTMLImageElement.t) (id : string)
    (opts : Options.t) (config : OverlayConfig.t) (bitmap : list Z)
    (quality : Q) (now : Z) : ImageVariant.t :=
  let dataUrl :=
    encode env (default image_jpeg (Options.exportFormat opts)) quality
      (canvasWidth img opts) (canvasHeight img opts) bitmap in
  ImageVariant.mk id dataUrl (Some dataUrl) config None None pending None
    (Some now) (Options.tags opts).

(** The operations on the store, and a sequence of them run in order. *)
Inductive StoreOp :=
| Put (v : ImageVariant.t)
| Clear.

Definition runOp (op : StoreOp) : Task bool :=
  match op with
  | Put v => saveVariantToDB v
  | Clear => clearAllVariantsFromDB
  end.

Fixpoint runOps (ops : list StoreOp) : Task unit :=
  match ops with
  | [] => ret tt
  | op :: ops' => runOp op;; runOps ops'
  end.

(** The variant written last under the id [k] by a sequence of operations,
    [before] being what the store held under [k] when it started. *)
Fixpoint lastWrite (ops : list StoreOp) (k : string)
    (before : option ImageVariant.t) : option ImageVariant.t :=
  match ops with
  | [] => before
  | Put v :: ops' =>
      lastWrite ops' k (if decide (ImageVariant.id v = k) then Some v else before)
  | Clear :: ops' => lastWrite ops' k None
  end.

(** An environment in which every database request succeeds. *)
Definition faultless (env : Env) : Prop := forall k, dbFault env k = None.


(** A variant with a given id and export format, for examples. *)
Definition sampleConfig (format : ExportFormat) : OverlayConfig.t :=
  OverlayConfig.mk "Saree" (Some "Arial") 15 (Some "#ffffff") 1 1 0 None None None
    (Some format) (Some 1) (Some 0.03).

Definition sampleVariant (id : string) (format : ExportFormat) : ImageVariant.t :=
  ImageVariant.mk id "data:image/png;2x1" (Some "data:image/png;2x1")
    (sampleConfig format) None None pending None (Some 0%Z) None.


Definition hasUrl (v : ImageVariant.t) : bool :=
  JsString.truthy (ImageVariant.dataUrl v).

(** Every [Math.random()] lies in [0, 1). *)
Definition unitEntropy (env : Env) : Prop :=
  forall k, 0 <= Math_random_at env k /\ Math_random_at env k < 1.

(** A [Uint8ClampedArray] holds bytes. *)
Definition bytes (data : list Z) : Prop :=
  Forall (fun c => (0 <= c <= 255)%Z) data.

(** The byte stored for a channel that held [old] and receives [noise]. *)
Definition stored (old : Z) (noise : Q) : Z :=
  JsNum.ToUint8Clamp (JsNum.Math_min 255 (JsNum.Math_max 0 (inject_Z old + noise))).

(** What one iteration of the loop does to the pixel at byte offset [p]: one
    draw [r] gives the noise added to each of its three colour channels, and
    its alpha byte is overwritten exactly when [p] is a multiple of 100. *)
Definition pixelJittered (lvl : Q) (old new : list Z) (p : nat) : Prop :=
  exists r, 0 <= r /\ r < 1 /\
    (forall c o, (c < 3)%nat -> old !! (p + c)%nat = Some o ->
       new !! (p + c)%nat = Some (stored o ((r - 0.5) * (lvl * 15)))) /\
    ((p mod 100 = 0)%nat -> (p + 3 < length old)%nat ->
       new !! (p + 3)%nat = Some 254%Z \/ new !! (p + 3)%nat = Some 255%Z) /\
    ((p mod 100 <> 0)%nat -> new !! (p + 3)%nat = old !! (p + 3)%nat).

(** An environment in which every canvas yields a 2D context. *)
Definition allContexts (env : Env) : Prop := forall k, canvasContext env k = true.

(** The ids [generateVariant] was called with, the progress values reported
    and the batches handed to [onVariantsGenerated], in order. *)
Definition calls (t : list Event) : list string :=
  omap (fun e => match e with GenerateVariantCalled id => Some id | _ => None end) t.

Definition progressReports (t : list Event) : list Q :=
  omap (fun e => match e with SetProgress p => Some p | _ => None end) t.

Definition delivered (t : list Event) : list (list ImageVariant.t) :=
  omap (fun e => match e with OnVariantsGenerated vs _ => Some vs | _ => None end) t.

(** The events of the iterations that produced [vs], the first being
    iteration [i]: each item is generated and put before its progress is
    reported and the next item is started. *)
Fixpoint runEvents (count : Q) (i : nat) (vs : list ImageVariant.t) : list Event :=
  match vs with
  | [] => []
  | v :: vs' =>
      GenerateVariantCalled (ImageVariant.id v)
      :: StorePut (ImageVariant.id v)
      :: SetProgress (progressAfter count i)
      :: runEvents count (S i) vs'
  end.



(** * The rest of the application *)

(** ** Reading one variant ([getVariantFromDB], first revision of
    [imageService.ts]) *)

(** [store.get(id)], [null] when nothing is stored under [id]. *)
Definition getVariantFromDB (id : string) : Task (option ImageVariant.t) :=
  fault <- nextDbFault;;
  getDB fault;;
  match fault with
  | Some f => throw (DbError f)
  | None =>
      m <- readStore;;
      ret (m !! id)
  end.

(** ** JavaScript arrays and maps *)

(** [arr[i]] for a computed integer index, [undefined] out of range. *)
Definition arrayAt {A} (arr : list A) (i : Z) : option A :=
  if decide (i < 0)%Z then None else arr !! Z.to_nat i.

(** [arr.sort(cmp)]: the stable sort by a comparator whose sign orders two
    elements.  An element goes in front of the first element of the sorted
    rest that must not precede it. *)
Fixpoint insertBy {A} (cmp : A -> A -> Z) (x : A) (l : list A) : list A :=
  match l with
  | [] => [x]
  | y :: l' => if (cmp x y <=? 0)%Z then x :: y :: l' else y :: insertBy cmp x l'
  end.

Definition Array_sort {A} (cmp : A -> A -> Z) (l : list A) : list A :=
  foldr (insertBy cmp) [] l.

(** A [Map] with string keys: its entries in insertion order.  [Map_set] on
    a key that is present replaces the value where it stands. *)
Fixpoint Map_set {A} (k : string) (v : A) (m : list (string * A))
  : list (string * A) :=
  match m with
  | [] => [(k, v)]
  | (k', v') :: m' =>
      if decide (k' = k) then (k, v) :: m' else (k', v') :: Map_set k v m'
  end.

(** [new Map(entries)]. *)
Definition Map_of {A} (entries : list (string * A)) : list (string * A) :=
  foldl (fun m e => Map_set e.1 e.2 m) [] entries.

(** [Array.from(m.values())]. *)
Definition Map_values {A} (m : list (string * A)) : list A := m.*2.

(** ** The application shell ([App.tsx]) *)

Inductive AppSection := SYNTHESIZER | VALIDATOR | INSIGHTS | SETTINGS.

Module App.
Record t := mk {
  activeSection : AppSection;
  variants : list ImageVariant.t;
  isLoadingHistory : bool;
  clearKey : nat
}.
Definition initial : t := mk SYNTHESIZER [] true 0.
End App.

(** [v.timestamp || 0]. *)
Definition stamp (v : ImageVariant.t) : Z :=
  match ImageVariant.timestamp v with
  | Some t => t
  | None => 0%Z
  end.

(** The comparator [(a, b) => (b.timestamp || 0) - (a.timestamp || 0)]. *)
Definition byNewest (a b : ImageVariant.t) : Z := (stamp b - stamp a)%Z.

(** [loadHistory], the effect run on mount.  The handler of its [catch]
    cannot throw, so its [finally] is what runs next. *)
Definition loadHistory (app : App.t) : Task App.t :=
  app <- try_catch
           (history <- getAllVariantsFromDB;;
            if (0 <? length history)%nat then
              ret (App.mk (App.activeSection app) (Array_sort byNewest history)
                     (App.isLoadingHistory app) (App.clearKey app))
            else ret app)
           (fun err => emit (ConsoleError err);; ret app);;
  ret (App.mk (App.activeSection app) (App.variants app) false (App.clearKey app)).

(** [handleVariantsGenerated]. *)
Definition handleVariantsGenerated (newVariants : list ImageVariant.t)
    (autoNavigate : bool) (app : App.t) : App.t :=
  App.mk (if autoNavigate then VALIDATOR else App.activeSection app)
    (newVariants ++ App.variants app)
    (App.isLoadingHistory app) (App.clearKey app).

(** [handleValidationComplete]. *)
Definition handleValidationComplete (updatedVariants : list ImageVariant.t)
    (app : App.t) : App.t :=
  let prevMap := Map_of (map (fun v => (ImageVariant.id v, v)) (App.variants app)) in
  let prevMap :=
    foldl (fun m v => Map_set (ImageVariant.id v) v m) prevMap updatedVariants in
  App.mk (App.activeSection app) (Array_sort byNewest (Map_values prevMap))
    (App.isLoadingHistory app) (App.clearKey app).

(** ** The validator ([ValidatorModule.tsx]) *)

Definition ERROR_TYPES : list string :=
  ["Incorrect Coordinate Mapping: [450, 320] invalid target";
   "UI Element Not Found: 'Upload' button obstructed";
   "Unexpected Page Load: Seller session expired";
   "Network Timeout: Algorithmic wait state exceeded";
   "OCR Failure: Price field unreadable"]%string.

(** [MOCK_PRICES] and [MOCK_SHIPPING] come from [constants.ts] and are
    parameters, as is the rendering of a time of day in the user's locale. *)
Record Mock := mkMock {
  MOCK_PRICES : list Q;
  MOCK_SHIPPING : list Q;
  toLocaleTimeString : Z -> string
}.

Module Validator.
Record Summary := mkSummary {
  total : nat;
  success : Z;
  failed : nat;
  errors : list (string * option string)
}.
Record t := mk {
  isRunning : bool;
  currentIndex : Z;
  logs : list string;
  results : list ImageVariant.t;
  summary : option Summary
}.
End Validator.

(** [addLog]: the new line goes first and the log keeps 15 lines. *)
Definition addLog (mock : Mock) (msg : string) (error : bool) (logs : list string)
  : Task (list string) :=
  now <- Date_now;;
  let prefix := if error then " [!] ERROR: " else " " in
  ret (take 15
         (("[" +:+ toLocaleTimeString mock now +:+ "]" +:+ prefix +:+ msg) :: logs)).

(** [{ ...v, status: 'failed', errorMessage }]. *)
Definition markFailed (v : ImageVariant.t) (errorMsg : option string)
  : ImageVariant.t :=
  ImageVariant.mk (ImageVariant.id v) (ImageVariant.dataUrl v)
    (ImageVariant.blobUrl v) (ImageVariant.config v)
    (ImageVariant.detectedPrice v) (ImageVariant.detectedShipping v)
    failed errorMsg (ImageVariant.timestamp v) (ImageVariant.tags v).

(** [{ ...v, status: 'completed', detectedPrice, detectedShipping }]. *)
Definition markCompleted (v : ImageVariant.t) (price shipping : option Q)
  : ImageVariant.t :=
  ImageVariant.mk (ImageVariant.id v) (ImageVariant.dataUrl v)
    (ImageVariant.blobUrl v) (ImageVariant.config v)
    price shipping
    completed (ImageVariant.errorMessage v) (ImageVariant.timestamp v)
    (ImageVariant.tags v).

(** [`${x}`] for a possibly undefined number. *)
Definition interpolateNumber (env : Env) (x : option Q) : string :=
  match x with
  | Some q => numberToString env q
  | None => "undefined"
  end.

(** [arr[i] = x] on an index within the array. *)
Definition assign {A} (arr : list A) (i : nat) (f : A -> A) : list A :=
  match arr !! i with
  | Some a => <[i := f a]> arr
  | None => arr
  end.

(** The loop of [startSimulation], entered at index [i]; the 600 ms pause of
    an iteration is not modelled.  Both arrays have the length of [variants],
    so [updatedVariants[i]] is always there. *)
Fixpoint simulationLoop (mock : Mock) (fuel : nat) (variants : list ImageVariant.t)
    (i : nat) (updatedVariants : list ImageVariant.t)
    (errors : list (string * option string)) (vs : Validator.t)
  : Task (list ImageVariant.t * list (string * option string) * Validator.t) :=
  match fuel with
  | O => ret (updatedVariants, errors, vs)
  | S fuel' =>
      match variants !! i with
      | None => ret (updatedVariants, errors, vs)
      | Some v =>
          env <- ask;;
          logs <- addLog mock ("Testing Cluster: " +:+ shortId v) false
                    (Validator.logs vs);;
          r <- Math_random;;
          if Qlt_le_dec r 0.05 then
            r' <- Math_random;;
            let errorMsg :=
              arrayAt ERROR_TYPES (Math_floor (r' * ofNat (length ERROR_TYPES))) in
            let updatedVariants :=
              assign updatedVariants i (fun u => markFailed u errorMsg) in
            logs <- addLog mock (interpolate errorMsg) true logs;;
            let errors := errors ++ [(ImageVariant.id v, errorMsg)] in
            simulationLoop mock fuel' variants (i + 1) updatedVariants errors
              (Validator.mk (Validator.isRunning vs) (Z.of_nat i) logs
                 updatedVariants (Validator.summary vs))
          else
            r1 <- Math_random;;
            let price :=
              arrayAt (MOCK_PRICES mock)
                (Math_floor (r1 * ofNat (length (MOCK_PRICES mock)))) in
            r2 <- Math_random;;
            let shipping :=
              arrayAt (MOCK_SHIPPING mock)
                (Math_floor (r2 * ofNat (length (MOCK_SHIPPING mock)))) in
            let updatedVariants :=
              assign updatedVariants i (fun u => markCompleted u price shipping) in
            logs <- addLog mock
                      ("Stability Pass: ₹" +:+ interpolateNumber env price
                       +:+ " / Ship ₹" +:+ interpolateNumber env shipping)
                      false logs;;
            simulationLoop mock fuel' variants (i + 1) updatedVariants errors
              (Validator.mk (Validator.isRunning vs) (Z.of_nat i) logs
                 updatedVariants (Validator.summary vs))
      end
  end.

(** [startSimulation]: the component state it leaves and, when it ran, the
    variants it hands to [onValidationComplete]. *)
Definition startSimulation (mock : Mock) (variants : list ImageVariant.t)
    (vs : Validator.t) : Task (Validator.t * option (list ImageVariant.t)) :=
  if (length variants =? 0)%nat then ret (vs, None)
  else
    logs <- addLog mock "Initializing Marketplace RPA Engine..." false [];;
    logs <- addLog mock "Syncing Local Asset Vault..." false logs;;
    looped <- simulationLoop mock (length variants) variants 0 variants []
                (Validator.mk true (Validator.currentIndex vs) logs
                   (Validator.results vs) None);;
    let '(updatedVariants, errors, vs) := looped in
    let summary :=
      Validator.mkSummary (length variants)
        (Z.of_nat (length variants) - Z.of_nat (length errors))
        (length errors) errors in
    logs <- addLog mock "Batch Ready for Amazon/Flipkart/Meesho Export." false
              (Validator.logs vs);;
    ret (Validator.mk false (-1) logs (Validator.results vs) (Some summary),
         Some updatedVariants).

(** ** The insights ([InsightsModule.tsx]) *)

(** [variants.filter(v => v.status === 'completed')]. *)
Definition completedOf (variants : list ImageVariant.t) : list ImageVariant.t :=
  List.filter (fun v => bool_decide (ImageVariant.status v = completed)) variants.

(** [v.detectedShipping || 999]. *)
Definition shippingOr999 (v : ImageVariant.t) : Q :=
  orNumber (ImageVariant.detectedShipping v) 999.

(** [completed.reduce((prev, curr) => ... ? curr : prev)], which starts from
    the first element. *)
Definition cheaper (prev curr : ImageVariant.t) : ImageVariant.t :=
  if Qlt_le_dec (shippingOr999 curr) (shippingOr999 prev) then curr else prev.

Definition bestOf (first : ImageVariant.t) (rest : list ImageVariant.t)
  : ImageVariant.t :=
  foldl cheaper first rest.

(** The [bestVariant] and [total] of [analyzedData], [null] without a
    completed variant.  Its chart data, which is read back from the keys of
    an object, is left out. *)
Definition analyzedData (variants : list ImageVariant.t)
  : option (ImageVariant.t * nat) :=
  match completedOf variants with
  | [] => None
  | first :: rest => Some (bestOf first rest, length (first :: rest))
  end.

(** [handleDownloadBest]. *)
Definition handleDownloadBest (variants : list ImageVariant.t) : Task unit :=
  match analyzedData variants with
  | Some (best, _) =>
      downloadImage (ImageVariant.dataUrl best)
        ("optimized-master-" +:+ shortId best +:+ ".jpg")
  | None => ret tt
  end.

(** ** The noise stage of the first revision of [generateVariant] *)

Fixpoint noiseLoop1 (fuel : nat) (textureIntensity : Q) (i : nat) (data : list Z)
  : Task (list Z) :=
  match fuel with
  | O => ret data
  | S fuel' =>
      if decide (i < length data)%nat then
        r <- Math_random;;
        let noise := (r - 0.5) * (textureIntensity * 10) in
        let data := jitterChannel data i noise in
        let data := jitterChannel data (i + 1) noise in
        let data := jitterChannel data (i + 2) noise in
        noiseLoop1 fuel' textureIntensity (i + 4) data
      else ret data
  end.

(** [if (options.textureIntensity && options.textureIntensity > 0) { ... }]. *)
Definition noiseStage1 (options : Options.t) (data : list Z) : Task (list Z) :=
  match Options.textureIntensity options with
  | Some t =>
      if Qlt_le_dec 0 t then noiseLoop1 (length data) t 0 data else ret data
  | None => ret data
  end.

(** ** Vocabulary of the further properties *)

(** The store after the variants [vs] were put into it in order. *)
Definition storeAll (vs : list ImageVariant.t) (m : gmap string ImageVariant.t)
  : gmap string ImageVariant.t :=
  foldl (fun m v => <[ImageVariant.id v := v]> m) m vs.

(** A variant as [handleGenerate] makes it for the component [c]: pending,
    with the component's settings in its resolved configuration. *)
Definition madeFor (c : Synthesizer.t) (v : ImageVariant.t) : Prop :=
  ImageVariant.status v = pending /\
  ImageVariant.tags v = Some (Synthesizer.tags c) /\
  ImageVariant.blobUrl v = Some (ImageVariant.dataUrl v) /\
  resolvedFrom (Synthesizer.productName c) (variantOptions c)
    (canvasScale (variantOptions c)) (ImageVariant.config v).

(** [newerFirst a b]: [a] may stand before [b] in a list sorted from the
    newest to the oldest. *)
Definition newerFirst (a b : ImageVariant.t) : Prop := (stamp b <= stamp a)%Z.

(** [validated mock inRange v u]: [u] is [v] after one round of the
    simulation whose random draws satisfy [inRange]. *)
Definition validated (mock : Mock) (inRange : Q -> Prop) (v u : ImageVariant.t)
  : Prop :=
  (exists r, inRange r /\
     u = markFailed v
           (arrayAt ERROR_TYPES (Math_floor (r * ofNat (length ERROR_TYPES))))) \/
  (exists r1 r2, inRange r1 /\ inRange r2 /\
     u = markCompleted v
           (arrayAt (MOCK_PRICES mock)
              (Math_floor (r1 * ofNat (length (MOCK_PRICES mock)))))
           (arrayAt (MOCK_SHIPPING mock)
              (Math_floor (r2 * ofNat (length (MOCK_SHIPPING mock)))))).

(** The failed variants of a result, as the summary lists them. *)
Definition failuresOf (results : list ImageVariant.t)
  : list (string * option string) :=
  (fun u => (ImageVariant.id u, ImageVariant.errorMessage u))
    <$> filter (fun u => ImageVariant.status u = failed) results.

(** Tables of detected prices and shipping fees to run examples on. *)
Definition sampleMock : Mock :=
  mkMock [299; 349; 399] [0; 49; 70] (fun _ => "10:00:00").


(** A validated variant with a given id and shipping fee, for examples. *)
Definition sampleResult (id : string) (shipping : Q) : ImageVariant.t :=
  markCompleted (sampleVariant id image_png) (Some 299) (Some shipping).

(** A state whose store holds one variant, and environments that hand out no
    drawing context or load no image, for examples. *)
Definition stockedState : State :=
  mkState 0 0 0 0
    {[ "cloaked-1700000000000-0"%string
       := sampleVariant "cloaked-1700000000000-0" image_png ]} [].

Definition withoutCanvas (e : Env) : Env :=
  mkEnv (Math_random_at e) (Date_now_at e) (fun _ => false) (dbFault e)
    (FONTS e) (COLORS e) (imageAt e) (paintImage e) (paintFiltered e)
    (paintText e) (encode e) (numberToString e).

Definition withoutImages (e : Env) : Env :=
  mkEnv (Math_random_at e) (Date_now_at e) (canvasContext e) (dbFault e)
    (FONTS e) (COLORS e) (fun _ => None) (paintImage e) (paintFiltered e)
    (paintText e) (encode e) (numberToString e).

Definition allFail : nat -> option DbFault := fun _ => Some TransactionFailed.

(** * Properties *)

(** ** The primitives on examples *)

Example ToUint8Clamp_ties :
  JsNum.ToUint8Clamp 0.5 = 0%Z /\ JsNum.ToUint8Clamp 1.5 = 2%Z /\
  JsNum.ToUint8Clamp 2.5 = 2%Z /\ JsNum.ToUint8Clamp (-3) = 0%Z /\
  JsNum.ToUint8Clamp 300 = 255%Z /\ JsNum.ToUint8Clamp 254.6 = 255%Z.
Proof. by repeat split. Qed.

Example Math_round_halves :
  JsNum.Math_round 0.5 = 1%Z /\ JsNum.Math_round 0.49 = 0%Z /\
  JsNum.Math_round (-0.5) = 0%Z.
Proof. by repeat split. Qed.

Example toUnsignedLong_truncates :
  JsNum.toUnsignedLong 4.7 = 4%N /\ JsNum.toUnsignedLong 1200 = 1200%N /\
  JsNum.toUnsignedLong (-1) = 4294967295%N.
Proof. by repeat split. Qed.

Example orNumber_falsy :
  JsNum.orNumber None 0.05 = 0.05 /\ JsNum.orNumber (Some 0) 0.05 = 0.05 /\
  JsNum.orNumber (Some 0.08) 0.05 = 0.08.
Proof. by repeat split. Qed.

Example split_pop_id :
  (JsString.split "-" "cloaked-1700000000000-7"
   = ["cloaked"; "1700000000000"; "7"]%string) /\
  (JsString.split "-" "plain" = ["plain"]%string) /\
  (JsString.split "-" "a-" = ["a"%string; EmptyString]) /\
  (shortId (sampleVariant "cloaked-1700000000000-7" image_png) = "7"%string).
Proof. by repeat split. Qed.

Example tripCount_examples :
  tripCount 3 = 3%nat /\ tripCount 2.5 = 3%nat /\ tripCount 0 = 0%nat /\
  tripCount (-2) = 0%nat.
Proof. by repeat split. Qed.

(** ** Tasks that only consume the environment *)

Create HintDb quiet.

Section Quiet.
Context (env : Env).

Lemma sameDb_refl st : sameDb st st.
Proof. by repeat split. Qed.

Lemma sameDb_trans st1 st2 st3 : sameDb st1 st2 -> sameDb st2 st3 -> sameDb st1 st3.
Proof. unfold sameDb. intros (?&?&?) (?&?&?). repeat split; congruence. Qed.

Lemma quietly_ret {A} (a : A) (P : A -> Prop) : P a -> quietly env (ret a) P.
Proof. intros HP st. exists a, st. auto using sameDb_refl. Qed.

Lemma quietly_bind {A B} (m : Task A) (k : A -> Task B) P Q :
  quietly env m P -> (forall a, P a -> quietly env (k a) Q) ->
  quietly env (bind m k) Q.
Proof.
  intros Hm Hk st. destruct (Hm st) as (a & st1 & E1 & HP & S1).
  destruct (Hk a HP st1) as (b & st2 & E2 & HQ & S2).
  exists b, st2. unfold bind. rewrite E1. eauto using sameDb_trans.
Qed.

Lemma quietly_mono {A} (m : Task A) (P Q : A -> Prop) :
  quietly env m P -> (forall a, P a -> Q a) -> quietly env m Q.
Proof.
  intros Hm HPQ st. destruct (Hm st) as (a & st1 & E & HP & S1). eauto 6.
Qed.

Lemma quietly_ask : quietly env ask (fun e => e = env).
Proof. intros st. exists env, st. auto using sameDb_refl. Qed.

Lemma quietly_Math_random : quietly env Math_random (fun _ => True).
Proof. intros st. eexists _, _. split; [reflexivity|]. by repeat split. Qed.

Lemma quietly_Date_now : quietly env Date_now (fun _ => True).
Proof. intros st. eexists _, _. split; [reflexivity|]. by repeat split. Qed.

Lemma quietly_getContext : quietly env getContext (fun _ => True).
Proof. intros st. eexists _, _. split; [reflexivity|]. by repeat split. Qed.

#[local] Hint Resolve quietly_ask quietly_Math_random quietly_Date_now
  quietly_getContext : quiet.

(** Chains of binds whose steps are all quiet. *)
Ltac quiet_steps :=
  repeat first
    [ apply quietly_ret
    | eapply quietly_bind; [solve [eauto with quiet] | intros ? ?]
    | match goal with |- quietly _ (if ?b then _ else _) _ => destruct b end ].

Lemma quietly_geometricJitter img opts w h :
  quietly env (geometricJitter img opts w h) (fun _ => True).
Proof. unfold geometricJitter. quiet_steps; exact I. Qed.

Lemma quietly_chromaticShift opts bitmap :
  quietly env (chromaticShift opts bitmap) (fun _ => True).
Proof. unfold chromaticShift. quiet_steps; exact I. Qed.

Lemma quietly_noiseLoop fuel lvl : forall i data,
  quietly env (noiseLoop fuel lvl i data) (fun _ => True).
Proof.
  induction fuel as [|fuel IH]; intros i data; simpl.
  - by apply quietly_ret.
  - destruct (decide (i < length data)%nat); [|by apply quietly_ret].
    eapply quietly_bind; [apply quietly_Math_random|intros r _].
    eapply quietly_bind; [|intros d _; apply IH].
    instantiate (1 := fun _ => True).
    destruct (decide (i mod 100 = 0)%nat); quiet_steps; exact I.
Qed.

Lemma quietly_noiseStage opts data :
  quietly env (noiseStage opts data) (fun _ => True).
Proof. apply quietly_noiseLoop. Qed.

Lemma quietly_overlayConfig img name opts scale :
  quietly env (overlayConfig img name opts scale) (resolvedFrom name opts scale).
Proof. unfold overlayConfig. quiet_steps. by repeat split. Qed.

#[local] Hint Resolve quietly_geometricJitter quietly_chromaticShift
  quietly_noiseStage quietly_overlayConfig : quiet.

Lemma quietly_renderBitmap img name opts :
  quietly env (renderBitmap img name opts)
    (fun r => resolvedFrom name opts (canvasScale opts) r.1).
Proof.
  unfold renderBitmap.
  eapply quietly_bind; [apply quietly_ask|intros ? _].
  eapply quietly_bind; [apply quietly_geometricJitter|intros ? _].
  eapply quietly_bind; [apply quietly_chromaticShift|intros ? _].
  eapply quietly_bind; [apply quietly_noiseStage|intros ? _].
  eapply quietly_bind; [apply quietly_overlayConfig|intros c Hc].
  by apply quietly_ret.
Qed.

End Quiet.

(** ** One run of [generateVariant] *)

Lemma generateVariant_run img name id opts env st :
  exists r st',
    generateVariant img name id opts env st = (r, st') /\
    if canvasContext env (canvases st) then
      exists config bitmap quality now,
        resolvedFrom name opts (canvasScale opts) config /\
        dbOps st' = S (dbOps st) /\
        match dbFault env (dbOps st) with
        | None =>
            let v := assembled env img id opts config bitmap quality now in
            r = Resolved v /\
            objectStore st' = <[id := v]> (objectStore st) /\
            trace st' = trace st ++ [GenerateVariantCalled id; StorePut id]
        | Some f =>
            r = Rejected (DbError f) /\
            objectStore st' = objectStore st /\
            trace st' = trace st ++ [GenerateVariantCalled id]
        end
    else
      r = Rejected CanvasContextMissing /\
      objectStore st' = objectStore st /\
      dbOps st' = dbOps st /\
      trace st' = trace st ++ [GenerateVariantCalled id].
Proof.
  unfold generateVariant. unfold bind at 1. simpl. unfold bind at 1. simpl.
  destruct (canvasContext env (canvases st)); simpl.
  2: { eexists _, _. split; [reflexivity|]. by repeat split. }
  unfold bind at 1. simpl.
  match goal with |- context [bind (renderBitmap _ _ _) _ env ?s] =>
    destruct (quietly_renderBitmap env img name opts s)
      as ([config bitmap] & st1 & E & Hc & Hs & Ht & Hd) end.
  simpl in Hc, Hs, Ht, Hd.
  unfold bind at 1. rewrite E. unfold bind at 1. simpl. unfold bind at 1. simpl.
  unfold saveVariantToDB. unfold bind at 1. unfold bind at 1. simpl.
  unfold bind at 1. simpl. rewrite Hd.
  destruct (dbFault env (dbOps st)) as [[]|]; simpl.
  all: eexists _, _; (split; [reflexivity|]);
    exists config, bitmap, (0.88 + Math_random_at env (drawn st1) * 0.05),
      (Date_now_at env (ticks st1));
    simpl; rewrite Hs, Ht; (split; [exact Hc|]); (split; [reflexivity|]).
  1, 2: by repeat split.
  unfold assembled. rewrite <- app_assoc. by repeat split.
Qed.

Lemma generateVariant_resolved img name id opts env st v st' :
  generateVariant img name id opts env st = (Resolved v, st') ->
  exists config bitmap quality now,
    resolvedFrom name opts (canvasScale opts) config /\
    v = assembled env img id opts config bitmap quality now /\
    objectStore st' = <[id := v]> (objectStore st) /\
    trace st' = trace st ++ [GenerateVariantCalled id; StorePut id] /\
    dbOps st' = S (dbOps st).
Proof.
  intros E. destruct (generateVariant_run img name id opts env st)
    as (r & st1 & E1 & H).
  rewrite E in E1. injection E1 as <- <-.
  destruct (canvasContext env (canvases st)); [|by destruct H].
  destruct H as (config & bitmap & quality & now & Hc & Hd & H).
  destruct (dbFault env (dbOps st)); [by destruct H|].
  destruct H as (Hv & Hs & Ht). injection Hv as ->.
  exists config, bitmap, quality, now. do 3 (split; [done|]). by split.
Qed.

Lemma generateVariant_resolves img name id opts env st :
  canvasContext env (canvases st) = true ->
  dbFault env (dbOps st) = None ->
  exists v st', generateVariant img name id opts env st = (Resolved v, st').
Proof.
  intros Hc Hf. destruct (generateVariant_run img name id opts env st)
    as (r & st1 & E1 & H).
  rewrite Hc, Hf in H. destruct H as (?&?&?&?&?&?&->&?). eauto.
Qed.

(** C10.  The [blobUrl] of every variant [generateVariant] returns is its
    [dataUrl]. *)
Theorem generateVariant_blobUrl_is_dataUrl img name id opts env st v st' :
  generateVariant img name id opts env st = (Resolved v, st') ->
  ImageVariant.blobUrl v = Some (ImageVariant.dataUrl v).
Proof.
  intros E. apply generateVariant_resolved in E
    as (config & bitmap & quality & now & _ & -> & _).
  reflexivity.
Qed.

Lemma generateVariant_blobUrl_is_dataUrl_witness :
  exists v st',
    generateVariant sampleImage "Saree" "cloaked-1700000000000-0"
      (variantOptions (sampleComponent 1)) (sampleEnv 0.25 noFaults) initialState
    = (Resolved v, st') /\
    ImageVariant.blobUrl v = Some (ImageVariant.dataUrl v).
Proof.
  eexists _, _. split; [vm_compute; reflexivity|].
  eapply (generateVariant_blobUrl_is_dataUrl sampleImage "Saree"
            "cloaked-1700000000000-0" (variantOptions (sampleComponent 1))
            (sampleEnv 0.25 noFaults) initialState).
  vm_compute. reflexivity.
Defined.

(** C7.  A variant returned by [generateVariant] has status [pending], and
    when it is returned the put of that variant has completed: the store holds
    it under its id and the put is the last thing that happened. *)
Theorem generateVariant_pending_and_persisted img name id opts env st v st' :
  generateVariant img name id opts env st = (Resolved v, st') ->
  ImageVariant.status v = pending /\
  ImageVariant.id v = id /\
  objectStore st' !! ImageVariant.id v = Some v /\
  last (trace st') = Some (StorePut (ImageVariant.id v)).
Proof.
  intros E. apply generateVariant_resolved in E
    as (config & bitmap & quality & now & _ & Hv & Hs & Ht & _).
  assert (ImageVariant.id v = id) as Hid by (by rewrite Hv).
  rewrite Hid. repeat split.
  - by rewrite Hv.
  - rewrite Hs. apply lookup_insert_eq.
  - rewrite Ht. change [GenerateVariantCalled id; StorePut id]
      with ([GenerateVariantCalled id] ++ [StorePut id]).
    rewrite app_assoc. apply last_snoc.
Qed.

Lemma generateVariant_pending_and_persisted_witness :
  exists v st',
    generateVariant sampleImage "Saree" "cloaked-1700000000000-0"
      (variantOptions (sampleComponent 1)) (sampleEnv 0.25 noFaults) initialState
    = (Resolved v, st') /\
    ImageVariant.status v = pending /\
    ImageVariant.id v = "cloaked-1700000000000-0" /\
    objectStore st' !! ImageVariant.id v = Some v /\
    last (trace st') = Some (StorePut (ImageVariant.id v)).
Proof.
  eexists _, _. split; [vm_compute; reflexivity|].
  eapply (generateVariant_pending_and_persisted sampleImage "Saree"
            "cloaked-1700000000000-0" (variantOptions (sampleComponent 1))
            (sampleEnv 0.25 noFaults) initialState).
  vm_compute. reflexivity.
Defined.

(** ** The resolved opacity *)

(** C9 as stated fails: an opacity of 2 handed to [generateVariant] is
    recorded unchanged. *)
Lemma generateVariant_opacity_unclamped :
  ~ (forall img name id opts env st v st',
       generateVariant img name id opts env st = (Resolved v, st') ->
       exists o, OverlayConfig.opacity (ImageVariant.config v) = Some o /\
                 0 <= o /\ o <= 1).
Proof.
  intros H.
  edestruct (H sampleImage "Saree"%string "cloaked-1700000000000-0"%string
               (Options.mk None None None None None (Some 2) None None)
               (sampleEnv 0.25 noFaults) initialState)
    as (o & Ho & _ & Hle); [vm_compute; reflexivity|].
  vm_compute in Ho. injection Ho as <-. by apply Hle.
Qed.

(** C9, amended.  The resolved opacity is the caller's opacity when one is
    supplied, unchanged, and 0.03 otherwise; 0.03 lies in (0, 0.1], and the
    resolved opacity lies in [0, 1] whenever the opacity supplied does. *)
Theorem generateVariant_opacity_resolved img name id opts env st v st' :
  generateVariant img name id opts env st = (Resolved v, st') ->
  exists o,
    OverlayConfig.opacity (ImageVariant.config v) = Some o /\
    match Options.opacity opts with
    | Some a => o = a
    | None => o = 0.03 /\ 0 < o /\ o <= 0.1
    end /\
    ((forall a, Options.opacity opts = Some a -> 0 <= a /\ a <= 1) ->
     0 <= o /\ o <= 1).
Proof.
  intros E. apply generateVariant_resolved in E
    as (config & bitmap & quality & now & Hc & -> & _).
  destruct Hc as (_ & Ho & _). simpl. rewrite Ho.
  eexists. split; [reflexivity|].
  destruct (Options.opacity opts) as [a|]; simpl.
  - split; [reflexivity|]. intros H. by apply H.
  - repeat split; try reflexivity; intros; lra.
Qed.

Lemma generateVariant_opacity_resolved_witness :
  exists v st',
    generateVariant sampleImage "Saree" "cloaked-1700000000000-0"
      Options.empty (sampleEnv 0.25 noFaults) initialState
    = (Resolved v, st') /\
    exists o,
      OverlayConfig.opacity (ImageVariant.config v) = Some o /\
      (o = 0.03 /\ 0 < o /\ o <= 0.1) /\
      ((forall a, @None Q = Some a -> 0 <= a /\ a <= 1) -> 0 <= o /\ o <= 1).
Proof.
  eexists _, _. split; [vm_compute; reflexivity|].
  eapply (generateVariant_opacity_resolved sampleImage "Saree"
            "cloaked-1700000000000-0" Options.empty
            (sampleEnv 0.25 noFaults) initialState).
  vm_compute. reflexivity.
Defined.

(** ** The size of the output raster *)

Lemma Qfloor_nonneg x : 0 <= x -> (0 <= Qfloor x)%Z.
Proof.
  intros H. change 0%Z with (Qfloor (inject_Z 0)). by apply Qfloor_resp_le.
Qed.






(** ** The variant store *)

Lemma runOps_store env ops : faultless env -> forall st,
  exists st', runOps ops env st = (Resolved tt, st') /\
    forall k, objectStore st' !! k = lastWrite ops k (objectStore st !! k).
Proof.
  intros Hf. induction ops as [|op ops IH]; intros st; simpl.
  - by exists st.
  - unfold bind at 1. destruct op as [v|]; simpl.
    + unfold saveVariantToDB, bind, nextDbFault; simpl. rewrite Hf. simpl.
      match goal with |- context [runOps ops env ?s] =>
        destruct (IH s) as (st' & E & H) end.
      exists st'. split; [done|]. intros k. rewrite H. simpl.
      f_equal. rewrite lookup_insert. by destruct (decide _).
    + unfold clearAllVariantsFromDB, bind, nextDbFault; simpl. rewrite Hf. simpl.
      match goal with |- context [runOps ops env ?s] =>
        destruct (IH s) as (st' & E & H) end.
      exists st'. split; [done|]. intros k. rewrite H. simpl.
      f_equal.
Qed.

Lemma lastWrite_keyed ops k : forall before w,
  (forall b, before = Some b -> ImageVariant.id b = k) ->
  lastWrite ops k before = Some w -> ImageVariant.id w = k.
Proof.
  induction ops as [|[v|] ops IH]; intros before w Hb; simpl.
  - auto.
  - apply IH. intros b. destruct (decide _); [by intros [= <-]|auto].
  - apply IH. done.
Qed.

Lemma lastWrite_snoc ops v k before :
  lastWrite (ops ++ [Put v]) k before =
  if decide (ImageVariant.id v = k) then Some v else lastWrite ops k before.
Proof.
  revert before. induction ops as [|[w|] ops IH]; intros before; simpl; auto.
Qed.

(** C4.  Run any sequence of puts and clears on a fresh store, then [put v]
    and [getAll]: the result has no two entries with the same id, its entries
    are exactly the variants written last under their id, and [v] is the one
    entry with the id of [v]. *)
Theorem put_getAll_last_write_wins env st ops v :
  faultless env ->
  objectStore st = ∅ ->
  exists l st',
    (runOps (ops ++ [Put v]);; getAllVariantsFromDB) env st = (Resolved l, st') /\
    NoDup (ImageVariant.id <$> l) /\
    (forall w, w ∈ l <->
               lastWrite (ops ++ [Put v]) (ImageVariant.id w) None = Some w) /\
    v ∈ l /\
    (forall w, w ∈ l -> ImageVariant.id w = ImageVariant.id v -> w = v).
Proof.
  intros Hf Hempty.
  destruct (runOps_store env (ops ++ [Put v]) Hf st) as (st1 & E & Hm).
  assert (forall k, objectStore st1 !! k = lastWrite (ops ++ [Put v]) k None)
    as Hlook.
  { intros k. rewrite Hm, Hempty. by rewrite lookup_empty. }
  assert (forall k w, objectStore st1 !! k = Some w -> ImageVariant.id w = k)
    as Hkey.
  { intros k w. rewrite Hlook. by apply lastWrite_keyed. }
  assert (forall w, w ∈ (map_to_list (objectStore st1)).*2 <->
                    objectStore st1 !! ImageVariant.id w = Some w) as Hin.
  { intros w. rewrite list_elem_of_fmap. split.
    - intros ([k w'] & -> & Hk). apply elem_of_map_to_list in Hk. simpl.
      by rewrite (Hkey _ _ Hk).
    - intros Hw. exists (ImageVariant.id w, w). split; [done|].
      by apply elem_of_map_to_list. }
  exists ((map_to_list (objectStore st1)).*2). eexists. split.
  { unfold bind at 1. rewrite E. unfold getAllVariantsFromDB, bind, nextDbFault.
    simpl. rewrite Hf. simpl. reflexivity. }
  split; [|split; [|split]].
  - replace (ImageVariant.id <$> (map_to_list (objectStore st1)).*2)
      with ((map_to_list (objectStore st1)).*1).
    { apply NoDup_fst_map_to_list. }
    rewrite <- list_fmap_compose. apply list_fmap_ext.
    intros i [k w] Hk. simpl.
    symmetry. apply Hkey. apply elem_of_map_to_list.
    apply list_elem_of_lookup. eauto.
  - intros w. by rewrite Hin, Hlook.
  - rewrite Hin, Hlook, lastWrite_snoc. by rewrite decide_True.
  - intros w. rewrite Hin, Hlook, lastWrite_snoc. intros Hw Hid.
    rewrite decide_True in Hw by done. congruence.
Qed.

(** ** Exported file names *)

Lemma append_assoc (a b c : string) : (a +:+ b) +:+ c = a +:+ (b +:+ c).
Proof.
  induction a as [|x a IH]; [done|].
  change (String x ((a +:+ b) +:+ c) = String x (a +:+ (b +:+ c))).
  by rewrite IH.
Qed.

Lemma split_last sep s :
  exists segs t,
    JsString.split sep s = segs ++ [t] /\
    JsString.occurs sep t = false /\
    (segs = [] -> s = t) /\
    (segs <> [] -> exists p, s = p +:+ String sep t).
Proof.
  induction s as [|c s (segs & t & E & Ht & H0 & H1)]; simpl.
  - exists [], EmptyString. by repeat split.
  - destruct (decide (c = sep)) as [->|Hc].
    + exists (EmptyString :: segs), t. rewrite E. repeat split; [done|done|].
      intros _. destruct segs as [|a segs].
      * exists EmptyString. simpl. by rewrite H0.
      * destruct H1 as (p & ->); [done|]. by exists (String sep p).
    + rewrite E. destruct segs as [|a segs]; simpl.
      * exists [], (String c t). simpl. rewrite decide_False by done.
        repeat split; [done| |done]. intros _. by rewrite H0.
      * exists (String c a :: segs), t. repeat split; [done|done|].
        intros _. destruct H1 as (p & ->); [done|]. by exists (String c p).
Qed.






(** The button on a single tile saves under a name that always ends in
    [.jpg], whatever the format of the variant. *)
Lemma singleFilename_jpg v : JsString.endsWith (singleFilename v) ".jpg".
Proof.
  exists ("v-" +:+ lastChars 4 (ImageVariant.id v)). unfold singleFilename.
  by rewrite append_assoc.
Qed.

(** ** Byte stores *)

Lemma Qfloor_bounds x : inject_Z (Qfloor x) <= x /\ x < inject_Z (Qfloor x) + 1.
Proof.
  split; [apply Qfloor_le|].
  pose proof (Qlt_floor x) as H. by rewrite inject_Z_plus in H.
Qed.

Lemma inject_Z_lt_1 a b : inject_Z a < inject_Z b + 1 -> (a <= b)%Z.
Proof.
  intros H. change 1 with (inject_Z 1) in H. rewrite <- inject_Z_plus in H.
  rewrite <- Zlt_Qlt in H. lia.
Qed.


Lemma ToUint8Clamp_near (c : Z) (x : Q) :
  (0 <= c <= 255)%Z ->
  inject_Z c - 0.5 < x -> x < inject_Z c + 0.5 ->
  JsNum.ToUint8Clamp (JsNum.Math_min 255 (JsNum.Math_max 0 x)) = c.
Proof.
  intros Hc Hlo Hhi.
  assert (inject_Z 0 <= inject_Z c /\ inject_Z c <= inject_Z 255) as [Hc0 Hc1].
  { rewrite <- !Zle_Qle. lia. }
  change (inject_Z 0) with 0 in Hc0. change (inject_Z 255) with 255 in Hc1.
  unfold JsNum.Math_max, JsNum.Math_min.
  destruct (Qlt_le_dec 0 x) as [H0|H0].
  - destruct (Qlt_le_dec x 255) as [H1|H1].
    + unfold JsNum.ToUint8Clamp.
      destruct (Qlt_le_dec 0 x) as [_|?]; [|lra].
      destruct (Qlt_le_dec x 255) as [_|?]; [|lra].
      destruct (Qfloor_bounds x) as [Hf1 Hf2].
      assert (Qfloor x <= c)%Z by (apply inject_Z_lt_1; lra).
      assert (c <= Qfloor x + 1)%Z.
      { apply inject_Z_lt_1. rewrite inject_Z_plus.
        change (inject_Z 1) with 1. lra. }
      destruct (decide (Qfloor x = c)) as [E|E].
      * rewrite E in *. destruct (Qcompare_spec (inject_Z c + (1 # 2)) x); [lra|lra|done].
      * assert (Qfloor x + 1 = c)%Z as E' by lia.
        assert (inject_Z (Qfloor x) + 1 == inject_Z c) as Eq.
        { rewrite <- E', inject_Z_plus. reflexivity. }
        destruct (Qcompare_spec (inject_Z (Qfloor x) + (1 # 2)) x); [lra|lia|lra].
    + assert (c = 255%Z) as ->.
      { assert (255 <= c)%Z; [|lia]. apply inject_Z_lt_1.
        change (inject_Z 255) with 255. lra. }
      reflexivity.
  - assert (c = 0%Z) as ->.
    { assert (c <= 0)%Z; [|lia]. apply inject_Z_lt_1.
      change (inject_Z 0) with 0. lra. }
    reflexivity.
Qed.

(** The byte written over an alpha channel is 254 or 255. *)
Lemma alpha_fingerprint r :
  0 <= r -> r < 1 ->
  let a := JsNum.ToUint8Clamp (inject_Z (254 + JsNum.Math_round r)) in
  a = 254%Z \/ a = 255%Z.
Proof.
  intros H0 H1. unfold JsNum.Math_round.
  destruct (Qfloor_bounds (r + (1 # 2))) as [Hf1 Hf2].
  assert (0 <= Qfloor (r + (1 # 2)))%Z by (apply Qfloor_nonneg; lra).
  assert (Qfloor (r + (1 # 2)) <= 1)%Z.
  { apply inject_Z_lt_1. change (inject_Z 1) with 1. lra. }
  assert (Qfloor (r + (1 # 2)) = 0 \/ Qfloor (r + (1 # 2)) = 1)%Z as [->| ->]
    by lia; [by left|by right].
Qed.

(** ** The noise stage *)

Lemma jitterChannel_length data i noise :
  length (jitterChannel data i noise) = length data.
Proof.
  unfold jitterChannel. destruct (data !! i); [apply length_insert|done].
Qed.

Lemma jitterChannel_eq data i noise o :
  data !! i = Some o -> jitterChannel data i noise !! i = Some (stored o noise).
Proof.
  intros E. unfold jitterChannel. rewrite E.
  apply list_lookup_insert_eq. by eapply lookup_lt_Some.
Qed.

Lemma jitterChannel_ne data i j noise :
  i <> j -> jitterChannel data i noise !! j = data !! j.
Proof.
  intros Hne. unfold jitterChannel.
  destruct (data !! i); [by apply list_lookup_insert_ne|done].
Qed.

(** The three colour channels of the pixel at [i] after the three stores. *)
Lemma jitter3_channels data i noise c o :
  (c < 3)%nat -> data !! (i + c)%nat = Some o ->
  jitterChannel (jitterChannel (jitterChannel data i noise) (i + 1) noise)
    (i + 2) noise !! (i + c)%nat = Some (stored o noise).
Proof.
  intros Hc E.
  assert (c = 0 \/ c = 1 \/ c = 2)%nat as [->|[->| ->]] by lia.
  - rewrite Nat.add_0_r in *.
    rewrite !jitterChannel_ne by lia. by apply jitterChannel_eq.
  - rewrite jitterChannel_ne by lia. apply jitterChannel_eq.
    by rewrite jitterChannel_ne by lia.
  - apply jitterChannel_eq. by rewrite !jitterChannel_ne by lia.
Qed.

Lemma jitter3_others data i noise j :
  (j < i \/ i + 3 <= j)%nat ->
  jitterChannel (jitterChannel (jitterChannel data i noise) (i + 1) noise)
    (i + 2) noise !! j = data !! j.
Proof. intros Hj. by rewrite !jitterChannel_ne by lia. Qed.

Lemma pixelJittered_ext lvl old old' new new' p :
  length old' = length old ->
  (forall c, (c < 4)%nat -> old' !! (p + c)%nat = old !! (p + c)%nat) ->
  (forall c, (c < 4)%nat -> new' !! (p + c)%nat = new !! (p + c)%nat) ->
  pixelJittered lvl old new p -> pixelJittered lvl old' new' p.
Proof.
  intros Hlen Hold Hnew (r & H0 & H1 & Hrgb & Ha & Hna).
  exists r. split; [done|]. split; [done|]. split; [|split].
  - intros c o Hc E. rewrite Hnew by lia. apply Hrgb; [done|].
    by rewrite <- Hold by lia.
  - intros Hp Hl. rewrite Hnew by lia. apply Ha; [done|]. by rewrite <- Hlen.
  - intros Hp. rewrite Hnew, Hold by lia. by apply Hna.
Qed.

Section NoiseStage.
Variable env : Env.
Hypothesis entropy_unit : unitEntropy env.

Lemma noiseLoop_spec lvl : forall fuel i data st,
  (length data <= i + 4 * fuel)%nat ->
  exists out st',
    noiseLoop fuel lvl i data env st = (Resolved out, st') /\
    length out = length data /\
    (forall j, (j < i)%nat -> out !! j = data !! j) /\
    (forall k, (i + 4 * k < length data)%nat ->
       pixelJittered lvl data out (i + 4 * k)).
Proof.
  pose proof entropy_unit as Hu.
  induction fuel as [|fuel IH]; intros i data st Hlen; cbn [noiseLoop].
  - exists data, st. repeat split; [done..|]. intros k Hk. lia.
  - destruct (decide (i < length data)%nat) as [Hi|Hi]; cycle 1.
    { exists data, st. repeat split; [done..|]. intros k Hk. lia. }
    unfold bind at 1. cbn [Math_random]. cbv zeta.
    set (r := Math_random_at env (drawn st)).
    set (noise := (r - 0.5) * (lvl * 15)).
    set (data3 := jitterChannel (jitterChannel (jitterChannel data i noise)
                    (i + 1) noise) (i + 2) noise).
    assert (length data3 = length data) as Hlen3.
    { unfold data3. by rewrite !jitterChannel_length. }
    destruct (Hu (drawn st)) as [Hr0 Hr1]. fold r in Hr0, Hr1.
    (* the state and bytes with which the next iteration is entered *)
    assert (exists data4 st4,
      forall fuel', 
        bind (if decide (i mod 100 = 0)%nat then
                bind Math_random (fun a =>
                  ret (<[(i + 3)%nat :=
                         JsNum.ToUint8Clamp (inject_Z (254 + JsNum.Math_round a))]>
                       data3))
              else ret data3)
             (fun d => noiseLoop fuel' lvl (i + 4) d) env
             (mkState (S (drawn st)) (ticks st) (canvases st) (dbOps st)
                (objectStore st) (trace st))
        = noiseLoop fuel' lvl (i + 4) data4 env st4 /\
        length data4 = length data /\
        (forall j, (j < i + 3 \/ i + 4 <= j)%nat -> data4 !! j = data3 !! j) /\
        ((i mod 100 = 0)%nat -> (i + 3 < length data)%nat ->
           data4 !! (i + 3)%nat = Some 254%Z \/ data4 !! (i + 3)%nat = Some 255%Z) /\
        ((i mod 100 <> 0)%nat -> data4 !! (i + 3)%nat = data3 !! (i + 3)%nat))
      as (data4 & st4 & H4).
    { destruct (decide (i mod 100 = 0)%nat) as [Hm|Hm].
      - eexists _, _. intros fuel'. split; [reflexivity|].
        split; [by rewrite length_insert|]. split; [|split].
        + intros j Hj. by rewrite list_lookup_insert_ne by lia.
        + intros _ Hl. rewrite list_lookup_insert_eq by lia.
          destruct (Hu (S (drawn st))) as [Ha0 Ha1]. cbn [drawn].
          destruct (alpha_fingerprint _ Ha0 Ha1) as [->| ->]; auto.
        + done.
      - exists data3. eexists. intros fuel'. split; [reflexivity|].
        by repeat split. }
    destruct (H4 fuel) as (E4 & Hlen4 & Hsame4 & Halpha & Hnoalpha).
    rewrite E4.
    destruct (IH (i + 4)%nat data4 st4) as (out & st' & E & Hlo & Hbelow & Hpix);
      [lia|].
    exists out, st'. split; [done|]. split; [congruence|]. split.
    + intros j Hj. rewrite Hbelow by lia. rewrite Hsame4 by lia.
      unfold data3. apply jitter3_others. lia.
    + intros [|k] Hk.
      * rewrite Nat.mul_0_r, Nat.add_0_r.
        exists r. split; [done|]. split; [done|]. split; [|split].
        -- intros c o Hc Eo. rewrite Hbelow by lia. rewrite Hsame4 by lia.
           by apply jitter3_channels.
        -- intros Hm Hl. rewrite Hbelow by lia. by apply Halpha.
        -- intros Hm. rewrite Hbelow by lia. rewrite Hnoalpha by done.
           unfold data3. apply jitter3_others. lia.
      * replace (i + 4 * S k)%nat with (i + 4 + 4 * k)%nat by lia.
        eapply (pixelJittered_ext lvl data4 data out out); [congruence| |done|].
        -- intros c Hc. symmetry. rewrite Hsame4 by lia.
           unfold data3. apply jitter3_others. lia.
        -- apply Hpix. lia.
Qed.

Lemma pixel_offset_mod k : ((4 * k) mod 100 = 0 <-> k mod 25 = 0)%nat.
Proof.
  change 100%nat with (4 * 25)%nat. rewrite Nat.Div0.mul_mod_distr_l. lia.
Qed.


Lemma noiseStage_run opts data st :
  exists out st',
    noiseStage opts data env st = (Resolved out, st') /\
    length out = length data /\
    (forall k, (4 * k < length data)%nat ->
       pixelJittered (JsNum.orNumber (Options.textureIntensity opts) 0.05)
         data out (4 * k)).
Proof.
  unfold noiseStage.
  destruct (noiseLoop_spec (JsNum.orNumber (Options.textureIntensity opts) 0.05)
              (length data) 0 data st) as (out & st' & E & Hl & _ & Hp); [lia|].
  exists out, st'. split; [done|]. split; [done|]. intros k Hk. by apply Hp.
Qed.


(** C1, amended.  At [textureIntensity = 0] the noise stage still runs, but
    it leaves the red, green and blue bytes of every pixel as they were; of the
    alpha bytes it changes only those of the pixels whose index is a multiple
    of 25, which it sets to 254 or 255. *)
Theorem noiseStage_zero_intensity opts data st t :
  Options.textureIntensity opts = Some t -> t == 0 -> bytes data ->
  exists out st',
    noiseStage opts data env st = (Resolved out, st') /\
    length out = length data /\
    forall k,
      (forall c, (c < 3)%nat -> out !! (4 * k + c)%nat = data !! (4 * k + c)%nat) /\
      ((k mod 25 <> 0)%nat -> out !! (4 * k + 3)%nat = data !! (4 * k + 3)%nat) /\
      ((k mod 25 = 0)%nat -> (4 * k + 3 < length data)%nat ->
         out !! (4 * k + 3)%nat = Some 254%Z \/
         out !! (4 * k + 3)%nat = Some 255%Z).
Proof.
  intros Ht Hz Hb.
  destruct (noiseStage_run opts data st) as (out & st' & E & Hl & Hp).
  exists out, st'. split; [done|]. split; [done|]. intros k.
  assert (forall j, (length data <= j)%nat -> out !! j = data !! j) as Hout.
  { intros j Hj. rewrite !lookup_ge_None_2; [done|lia|lia]. }
  destruct (decide (4 * k < length data)%nat) as [Hk|Hk]; cycle 1.
  { split; [|split]; intros; [apply Hout; lia|apply Hout; lia|lia]. }
  destruct (Hp k Hk) as (r & H0 & H1 & Hrgb & Ha & Hna).
  rewrite Ht in Hrgb. cbn [JsNum.orNumber] in Hrgb.
  apply Qeq_bool_iff in Hz. rewrite Hz in Hrgb.
  split; [|split].
  - intros c Hc. destruct (data !! (4 * k + c)%nat) as [o|] eqn:Eo.
    + rewrite (Hrgb c o Hc Eo). f_equal. unfold stored.
      apply ToUint8Clamp_near.
      * eapply Forall_lookup_1 in Hb; [|exact Eo]. done.
      * nra.
      * nra.
    + apply lookup_ge_None in Eo. apply lookup_ge_None. lia.
  - intros Hm. apply Hna. by rewrite pixel_offset_mod.
  - intros Hm. apply Ha. by apply pixel_offset_mod.
Qed.

End NoiseStage.

Lemma sampleEnv_unitEntropy : unitEntropy (sampleEnv 0.25 noFaults).
Proof. intros k. simpl. split; lra. Qed.


(** C1 as stated fails: at [textureIntensity = 0] the stage turns an opaque
    white pixel into one of alpha 254. *)
Lemma noiseStage_zero_intensity_counterexample :
  ~ (forall opts data env st out st',
       Options.textureIntensity opts = Some 0 ->
       unitEntropy env -> bytes data ->
       noiseStage opts data env st = (Resolved out, st') ->
       out = data).
Proof.
  intros H.
  assert ([255; 255; 255; 254]%Z = [255; 255; 255; 255]%Z) as Habs; [|done].
  apply (H (Options.mk None None (Some 0) None None None None None)
           [255; 255; 255; 255]%Z (sampleEnv 0.25 noFaults) initialState
           [255; 255; 255; 254]%Z
           (mkState 2 0 0 0 ∅ [])).
  - reflexivity.
  - exact sampleEnv_unitEntropy.
  - repeat constructor; done.
  - vm_compute. reflexivity.
Qed.


Lemma noiseStage_zero_intensity_witness :
  Options.textureIntensity (Options.mk None None (Some 0) None None None None None)
    = Some 0 /\
  0 == 0 /\
  unitEntropy (sampleEnv 0.25 noFaults) /\
  bytes [255; 255; 255; 255]%Z /\
  exists out st',
    noiseStage (Options.mk None None (Some 0) None None None None None)
      [255; 255; 255; 255]%Z (sampleEnv 0.25 noFaults) initialState
    = (Resolved out, st') /\
    length out = 4%nat /\
    forall k,
      (forall c, (c < 3)%nat ->
         out !! (4 * k + c)%nat = [255; 255; 255; 255]%Z !! (4 * k + c)%nat) /\
      ((k mod 25 <> 0)%nat ->
         out !! (4 * k + 3)%nat = [255; 255; 255; 255]%Z !! (4 * k + 3)%nat) /\
      ((k mod 25 = 0)%nat -> (4 * k + 3 < 4)%nat ->
         out !! (4 * k + 3)%nat = Some 254%Z \/
         out !! (4 * k + 3)%nat = Some 255%Z).
Proof.
  assert (bytes [255; 255; 255; 255]%Z) as Hb by (repeat constructor; done).
  split; [reflexivity|]. split; [reflexivity|].
  split; [exact sampleEnv_unitEntropy|]. split; [exact Hb|].
  exact (noiseStage_zero_intensity (sampleEnv 0.25 noFaults)
           sampleEnv_unitEntropy
           (Options.mk None None (Some 0) None None None None None)
           [255; 255; 255; 255]%Z initialState 0 eq_refl (Qeq_refl 0) Hb).
Defined.

(** ** Variant ids *)

Lemma split_app sep p s :
  JsString.split sep (p +:+ String sep s)
  = JsString.split sep p ++ JsString.split sep s.
Proof.
  induction p as [|c p IH].
  - change (EmptyString +:+ String sep s) with (String sep s). simpl.
    by rewrite decide_True.
  - change (String c p +:+ String sep s) with (String c (p +:+ String sep s)).
    simpl. rewrite IH. destruct (decide (c = sep)); [done|].
    destruct (split_last sep p) as (segs & t & -> & _).
    by destruct segs.
Qed.

Lemma split_no_sep sep s :
  JsString.occurs sep s = false -> JsString.split sep s = [s].
Proof.
  induction s as [|c s IH]; simpl; [done|].
  destruct (decide (c = sep)); [done|]. intros H. by rewrite IH.
Qed.

Lemma pretty_N_go_no_dash x : forall s,
  JsString.occurs "-" s = false -> JsString.occurs "-" (pretty_N_go x s) = false.
Proof.
  induction (N.lt_wf_0 x) as [x _ IH]; intros s Hs.
  assert (x = 0 \/ 0 < x)%N as [->|Hx] by lia.
  - by rewrite pretty_N_go_0.
  - rewrite pretty_N_go_step by done. apply IH.
    { by apply N.div_lt. }
    simpl. rewrite Hs. unfold pretty_N_char.
    by repeat case_match.
Qed.

Lemma pretty_nat_no_dash (i : nat) : JsString.occurs "-" (pretty i) = false.
Proof.
  unfold pretty, pretty_nat, pretty, pretty_N.
  destruct (decide _); [done|]. by apply pretty_N_go_no_dash.
Qed.

(** The tail segment of the id of item [i] is the decimal numeral of [i]. *)
Lemma shortId_variantId now i :
  JsString.interpolate (JsString.pop (JsString.split "-" (variantId now i)))
  = pretty i.
Proof.
  unfold variantId.
  change ("cloaked-" +:+ pretty now +:+ "-" +:+ pretty i)
    with ("cloaked-" +:+ (pretty now +:+ String "-" (pretty i))).
  rewrite <- append_assoc, split_app.
  rewrite (split_no_sep "-" (pretty i)) by apply pretty_nat_no_dash.
  unfold JsString.pop. by rewrite last_snoc.
Qed.

Lemma variantId_inj now now' i j : variantId now i = variantId now' j -> i = j.
Proof.
  intros E. apply (inj pretty). rewrite <- (shortId_variantId now i).
  rewrite E. apply shortId_variantId.
Qed.

(** ** Batch generation *)

Lemma ofNat_lt i n : (i < n)%nat -> JsNum.ofNat i < JsNum.ofNat n.
Proof. intros H. unfold JsNum.ofNat. rewrite <- Zlt_Qlt. lia. Qed.

Lemma tripCount_integral count n :
  count == JsNum.ofNat n -> tripCount count = n.
Proof.
  intros H. unfold tripCount. rewrite H. unfold JsNum.ofNat.
  rewrite Qceiling_Z. lia.
Qed.

Lemma calls_runEvents count i vs :
  calls (runEvents count i vs) = ImageVariant.id <$> vs.
Proof.
  revert i. induction vs as [|v vs IH]; intros i; [done|].
  cbn. f_equal. apply IH.
Qed.

Lemma progressReports_runEvents count i vs :
  progressReports (runEvents count i vs)
  = progressAfter count <$> seq i (length vs).
Proof.
  revert i. induction vs as [|v vs IH]; intros i; [done|].
  cbn. f_equal. apply IH.
Qed.

Lemma delivered_runEvents count i vs : delivered (runEvents count i vs) = [].
Proof.
  revert i. induction vs as [|v vs IH]; intros i; [done|]. cbn. apply IH.
Qed.

Lemma progressAfter_fraction count n i :
  (1 <= n)%nat -> count == JsNum.ofNat n ->
  progressAfter count i == (JsNum.ofNat (i + 1) / JsNum.ofNat n) * 100.
Proof. intros Hn Hc. unfold progressAfter. by rewrite Hc. Qed.

Lemma progressAfter_mono count n i j :
  (1 <= n)%nat -> count == JsNum.ofNat n -> (i <= j)%nat ->
  progressAfter count i <= progressAfter count j.
Proof.
  intros Hn Hc Hij. unfold progressAfter. rewrite Hc.
  assert (0 < JsNum.ofNat n) as Hpos by (apply (ofNat_lt 0 n); lia).
  assert (JsNum.ofNat (i + 1) <= JsNum.ofNat (j + 1)) as Hle.
  { unfold JsNum.ofNat. rewrite <- Zle_Qle. lia. }
  apply Qmult_le_compat_r; [|lra].
  unfold Qdiv. apply Qmult_le_compat_r; [done|].
  apply Qlt_le_weak. by apply Qinv_lt_0_compat.
Qed.

Lemma progressAfter_last count n :
  (1 <= n)%nat -> count == JsNum.ofNat n ->
  progressAfter count (n - 1) == 100.
Proof.
  intros Hn Hc. unfold progressAfter. rewrite Hc.
  replace (n - 1 + 1)%nat with n by lia.
  assert (0 < JsNum.ofNat n) as Hpos by (apply (ofNat_lt 0 n); lia).
  field. lra.
Qed.

(** The setting of one run of [handleGenerate]: a component whose count is
    the integer [n], whose image and product name are set, an image that
    loads, and a drawing context for every canvas. *)
Section Batch.
Variables (env : Env) (c : Synthesizer.t) (n : nat).
Variables (url : string) (img : HTMLImageElement.t).
Hypothesis count_integral : Synthesizer.variantCount c == JsNum.ofNat n.
Hypothesis image_given : Synthesizer.baseImage c = Some url.
Hypothesis image_truthy : JsString.truthy url = true.
Hypothesis name_truthy : JsString.truthy (Synthesizer.productName c) = true.
Hypothesis image_loads : imageAt env url = Some img.
Hypothesis contexts : allContexts env.

Lemma generateLoop_ok :
  faultless env ->
  forall fuel i acc st, (i + fuel = n)%nat ->
  exists vs st',
    generateLoop fuel c img i acc env st = (Resolved (acc ++ vs), st') /\
    length vs = fuel /\
    (forall j v, vs !! j = Some v ->
       exists now, ImageVariant.id v = variantId now (i + j)) /\
    trace st' = trace st ++ runEvents (Synthesizer.variantCount c) i vs.
Proof.
  intros Hf. induction fuel as [|fuel IH]; intros i acc st Hn;
    cbn [generateLoop].
  - exists [], st. rewrite !app_nil_r. do 2 (split; [done|]). split; [|done].
    intros j v Hj. by rewrite lookup_nil in Hj.
  - destruct (Qlt_le_dec _ _) as [_|Hge].
    2: { exfalso. pose proof (ofNat_lt i n ltac:(lia)). pose proof count_integral. lra. }
    unfold bind at 1. cbn [Date_now]. unfold bind at 1.
    match goal with |- context [generateVariant img ?name ?id ?opts env ?s] =>
      destruct (generateVariant_run img name id opts env s) as (r & st2 & E & H)
    end.
    rewrite contexts, Hf in H.
    destruct H as (config & bitmap & quality & now & _ & _ & -> & _ & Ht).
    rewrite E. unfold bind at 1. cbn [emit].
    match goal with |- context [generateLoop fuel c img (i + 1) ?a env ?s] =>
      destruct (IH (i + 1)%nat a s) as (vs & st' & E' & Hlen & Hids & Ht');
        [lia|]
    end.
    eexists (_ :: vs), st'. split; [|split; [|split]].
    + rewrite E'. by rewrite <- app_assoc.
    + simpl. by rewrite Hlen.
    + intros [|j] v Hj.
      * injection Hj as <-. eexists. rewrite Nat.add_0_r. reflexivity.
      * destruct (Hids j v Hj) as (now' & ->). exists now'. f_equal. lia.
    + rewrite Ht'. cbn [trace]. rewrite Ht. cbn [trace runEvents assembled
        ImageVariant.id]. rewrite <- !app_assoc.
      by replace (i + 1)%nat with (S i) by lia.
Qed.

(** C5.  For an integral count [n >= 1], with an image that loads, a drawing
    context for every canvas and a store that takes every put,
    [handleGenerate] calls [generateVariant] [n] times, one call after the
    other (each call's put and progress report come before the next call),
    and hands [onVariantsGenerated] the [n] variants in the order they were
    made.  Their ids are pairwise distinct, the id of item [i] ending in
    [-i].  The progress reported after item [i] is [(i + 1) / n] as a
    percentage; it never decreases and is 100 after the last item. *)
Theorem handleGenerate_batch st :
  (1 <= n)%nat ->
  faultless env ->
  let count := Synthesizer.variantCount c in
  exists vs evs st',
    handleGenerate c env st = (Resolved tt, st') /\
    trace st' = trace st ++ evs /\
    evs = [SetIsGenerating true; SetProgress 0] ++ runEvents count 0 vs
          ++ [OnVariantsGenerated vs (Synthesizer.autoNavigate c);
              SetIsGenerating false] /\
    length vs = n /\
    calls evs = ImageVariant.id <$> vs /\
    delivered evs = [vs] /\
    NoDup (ImageVariant.id <$> vs) /\
    (forall i v, vs !! i = Some v ->
       exists now, ImageVariant.id v = variantId now i) /\
    progressReports evs = 0 :: (progressAfter count <$> seq 0 n) /\
    (forall i, progressAfter count i
               == (JsNum.ofNat (i + 1) / JsNum.ofNat n) * 100) /\
    (forall i j, (i <= j)%nat -> progressAfter count i <= progressAfter count j) /\
    progressAfter count (n - 1) == 100.
Proof.
  intros Hn Hf count. pose proof count_integral as Hcount.
  unfold handleGenerate. rewrite image_given, image_truthy, name_truthy.
  cbn [negb orb].
  unfold bind at 1. cbn [emit]. unfold bind at 1. cbn [emit].
  unfold try_finally, try_catch. unfold bind at 1.
  unfold loadImage at 1. unfold bind at 1. cbn [ask]. rewrite image_loads.
  cbn [ret].
  rewrite (tripCount_integral _ n Hcount). unfold bind at 1.
  match goal with |- context [generateLoop n c img 0 [] env ?s] =>
    destruct (generateLoop_ok Hf n 0%nat [] s)
      as (vs & st1 & E & Hlen & Hids & Ht); [lia|]
  end.
  rewrite E. cbn [emit app]. cbn [trace] in Ht.
  exists vs. eexists. eexists. split; [reflexivity|]. cbn [trace].
  split; [|split; [reflexivity|]].
  { rewrite Ht. rewrite <- !app_assoc. reflexivity. }
  split; [done|]. fold count.
  split.
  { cbn. unfold calls. rewrite omap_app. fold (calls (runEvents count 0 vs)).
    rewrite calls_runEvents. cbn. by rewrite app_nil_r. }
  split.
  { cbn. unfold delivered. rewrite omap_app.
    fold (delivered (runEvents count 0 vs)).
    by rewrite delivered_runEvents. }
  split.
  { apply NoDup_alt. intros i j x Hi Hj.
    rewrite list_lookup_fmap in Hi, Hj.
    destruct (vs !! i) as [vi|] eqn:Ei; [|done].
    destruct (vs !! j) as [vj|] eqn:Ej; [|done].
    injection Hi as <-. injection Hj as Hj.
    destruct (Hids i vi Ei) as (ti & Hti). destruct (Hids j vj Ej) as (tj & Htj).
    rewrite Hti, Htj in Hj. simpl in Hj. symmetry. by eapply variantId_inj. }
  split; [exact Hids|].
  split.
  { cbn. unfold progressReports. rewrite omap_app.
    fold (progressReports (runEvents count 0 vs)).
    rewrite progressReports_runEvents, Hlen. cbn. by rewrite app_nil_r. }
  split; [intros i; by apply progressAfter_fraction|].
  split; [intros i j; by apply (progressAfter_mono count n)|].
  by apply progressAfter_last.
Qed.

(** ** A put that fails *)



End Batch.

Lemma handleGenerate_batch_witness :
  (1 <= 3)%nat /\
  Synthesizer.variantCount (sampleComponent 3) == JsNum.ofNat 3 /\
  allContexts (sampleEnv 0.25 noFaults) /\
  faultless (sampleEnv 0.25 noFaults) /\
  exists vs evs st',
    handleGenerate (sampleComponent 3) (sampleEnv 0.25 noFaults) initialState
    = (Resolved tt, st') /\
    trace st' = trace initialState ++ evs /\
    length vs = 3%nat /\
    delivered evs = [vs] /\
    NoDup (ImageVariant.id <$> vs).
Proof.
  assert (allContexts (sampleEnv 0.25 noFaults)) as Hctx by (by intros k).
  assert (faultless (sampleEnv 0.25 noFaults)) as Hf by (by intros k).
  split; [lia|]. split; [reflexivity|]. split; [exact Hctx|]. split; [exact Hf|].
  destruct (handleGenerate_batch (sampleEnv 0.25 noFaults) (sampleComponent 3) 3
              "data:image/png;base64,AAAA" sampleImage
              (Qeq_refl _) eq_refl eq_refl eq_refl eq_refl Hctx
              initialState ltac:(lia) Hf)
    as (vs & evs & st' & E & Ht & _ & Hlen & _ & Hd & Hnd & _).
  exists vs, evs, st'. by repeat split.
Defined.



(** ** Examples for the store and the export *)

Lemma put_getAll_last_write_wins_witness :
  faultless (sampleEnv 0.25 noFaults) /\
  objectStore initialState = ∅ /\
  exists l st',
    (runOps ([Put (sampleVariant "a-1" image_jpeg); Clear;
              Put (sampleVariant "a-2" image_jpeg);
              Put (sampleVariant "a-3" image_jpeg)]
             ++ [Put (sampleVariant "a-2" image_png)]);;
     getAllVariantsFromDB) (sampleEnv 0.25 noFaults) initialState
    = (Resolved l, st') /\
    NoDup (ImageVariant.id <$> l) /\
    sampleVariant "a-2" image_png ∈ l.
Proof.
  assert (faultless (sampleEnv 0.25 noFaults)) as Hf by (by intros k).
  split; [exact Hf|]. split; [reflexivity|].
  destruct (put_getAll_last_write_wins (sampleEnv 0.25 noFaults) initialState
              [Put (sampleVariant "a-1" image_jpeg); Clear;
               Put (sampleVariant "a-2" image_jpeg);
               Put (sampleVariant "a-3" image_jpeg)]
              (sampleVariant "a-2" image_png) Hf eq_refl)
    as (l & st' & E & Hnd & _ & Hin & _).
  exists l, st'. split; [exact E|]. split; [exact Hnd|exact Hin].
Defined.


(** * Further properties *)
(** ** More on the variant store *)

Lemma saveVariantToDB_ok env st v :
  dbFault env (dbOps st) = None ->
  saveVariantToDB v env st
  = (Resolved true,
     mkState (drawn st) (ticks st) (canvases st) (S (dbOps st))
       (<[ImageVariant.id v := v]> (objectStore st))
       (trace st ++ [StorePut (ImageVariant.id v)])).
Proof. intros H. unfold saveVariantToDB, bind, nextDbFault. simpl. by rewrite H. Qed.

Lemma clearAllVariantsFromDB_ok env st :
  dbFault env (dbOps st) = None ->
  clearAllVariantsFromDB env st
  = (Resolved true,
     mkState (drawn st) (ticks st) (canvases st) (S (dbOps st)) ∅
       (trace st ++ [StoreCleared])).
Proof.
  intros H. unfold clearAllVariantsFromDB, bind, nextDbFault. simpl. by rewrite H.
Qed.

Lemma getAllVariantsFromDB_ok env st :
  dbFault env (dbOps st) = None ->
  getAllVariantsFromDB env st
  = (Resolved ((map_to_list (objectStore st)).*2),
     mkState (drawn st) (ticks st) (canvases st) (S (dbOps st)) (objectStore st)
       (trace st)).
Proof.
  intros H. unfold getAllVariantsFromDB, bind, nextDbFault. simpl. by rewrite H.
Qed.

Lemma getVariantFromDB_ok env st id :
  dbFault env (dbOps st) = None ->
  getVariantFromDB id env st
  = (Resolved (objectStore st !! id),
     mkState (drawn st) (ticks st) (canvases st) (S (dbOps st)) (objectStore st)
       (trace st)).
Proof.
  intros H. unfold getVariantFromDB, bind, nextDbFault. simpl. by rewrite H.
Qed.

(** X1.  Once [clear] has succeeded the store is empty whatever it held:
    [getAll] resolves with the empty array and [get] with [null] for every
    id. *)
Theorem clear_then_read_empty env st id :
  dbFault env (dbOps st) = None ->
  dbFault env (S (dbOps st)) = None ->
  (exists st', (clearAllVariantsFromDB;; getAllVariantsFromDB) env st
               = (Resolved [], st') /\ objectStore st' = ∅) /\
  (exists st', (clearAllVariantsFromDB;; getVariantFromDB id) env st
               = (Resolved None, st')).
Proof.
  intros H0 H1. split.
  - unfold bind at 1. rewrite clearAllVariantsFromDB_ok by done.
    rewrite getAllVariantsFromDB_ok by done. simpl.
    rewrite map_to_list_empty. eauto.
  - unfold bind at 1. rewrite clearAllVariantsFromDB_ok by done.
    rewrite getVariantFromDB_ok by done. simpl. rewrite lookup_empty. eauto.
Qed.

(** X2.  [get] reads back what [put] wrote: after [put v], [get] of the id
    of [v] resolves with [v], and [get] of any other id resolves with what the
    store held under it before, [null] if nothing. *)
Theorem put_then_get env st v id :
  dbFault env (dbOps st) = None ->
  dbFault env (S (dbOps st)) = None ->
  exists st',
    (saveVariantToDB v;; getVariantFromDB id) env st
    = (Resolved (if decide (id = ImageVariant.id v) then Some v
                 else objectStore st !! id), st').
Proof.
  intros H0 H1. unfold bind at 1. rewrite saveVariantToDB_ok by done.
  rewrite getVariantFromDB_ok by done. simpl. eexists. f_equal. f_equal.
  rewrite lookup_insert. destruct (decide (ImageVariant.id v = id)) as [<-|Hne].
  - by rewrite decide_True.
  - rewrite decide_False; [done|congruence].
Qed.


(** X4.  [put] is idempotent: putting the same variant a second time leaves
    the store as the first put left it. *)
Theorem put_twice env st v :
  dbFault env (dbOps st) = None ->
  dbFault env (S (dbOps st)) = None ->
  exists st1 st2,
    saveVariantToDB v env st = (Resolved true, st1) /\
    (saveVariantToDB v;; saveVariantToDB v) env st = (Resolved true, st2) /\
    objectStore st2 = objectStore st1.
Proof.
  intros H0 H1. eexists _, _. split; [by apply saveVariantToDB_ok|].
  unfold bind at 1. rewrite saveVariantToDB_ok by done.
  rewrite saveVariantToDB_ok by done. split; [reflexivity|]. simpl.
  apply insert_insert_eq.
Qed.

(** ** More on [generateVariant] *)

Lemma generateVariant_stages img name id opts env st v st' :
  generateVariant img name id opts env st = (Resolved v, st') ->
  exists s1 s2 s3 s4 s5 s6 s7 drawn1 drawn2 data,
    canvasContext env (canvases st) = true /\
    geometricJitter img opts (canvasWidth img opts) (canvasHeight img opts) env s1
      = (Resolved drawn1, s2) /\
    chromaticShift opts drawn1 env s2 = (Resolved drawn2, s3) /\
    noiseStage opts drawn2 env s3 = (Resolved data, s4) /\
    overlayConfig img name opts (canvasScale opts) env s4
      = (Resolved (ImageVariant.config v), s5) /\
    Math_random env s5 = (Resolved (Math_random_at env (drawn s5)), s6) /\
    saveVariantToDB v env s7 = (Resolved true, st') /\
    ImageVariant.dataUrl v
      = encode env (default image_jpeg (Options.exportFormat opts))
          (0.88 + Math_random_at env (drawn s5) * 0.05)
          (canvasWidth img opts) (canvasHeight img opts)
          (paintText env (ImageVariant.config v) data).
Proof.
  intros H. unfold generateVariant in H. unfold bind at 1 in H. cbn [emit] in H.
  unfold bind at 1 in H. cbn [getContext canvases] in H.
  destruct (canvasContext env (canvases st)) eqn:Ectx; cbn [negb] in H;
    [|unfold throw in H; discriminate H].
  unfold bind at 1 in H. cbn [ask] in H.
  unfold bind at 1 in H. unfold renderBitmap at 1 in H.
  unfold bind at 1 in H. cbn [ask] in H.
  unfold bind at 1 in H.
  destruct (geometricJitter _ _ _ _ env _) as [[drawn1|] s2] eqn:E1;
    [|discriminate H].
  unfold bind at 1 in H.
  destruct (chromaticShift _ _ env _) as [[drawn2|] s3] eqn:E2; [|discriminate H].
  unfold bind at 1 in H.
  destruct (noiseStage _ _ env _) as [[data|] s4] eqn:E3; [|discriminate H].
  unfold bind at 1 in H.
  destruct (overlayConfig _ _ _ _ env _) as [[config|] s5] eqn:E4;
    [|discriminate H].
  cbn [ret] in H. unfold bind at 1 in H. cbn [Math_random] in H.
  unfold bind at 1 in H. cbn [Date_now] in H. unfold bind at 1 in H.
  match type of H with context [saveVariantToDB ?x env ?s] =>
    destruct (saveVariantToDB x env s) as [[b|] s8] eqn:E5; [|discriminate H]
  end.
  cbn [ret] in H. injection H as <- <-.
  assert (b = true) as ->.
  { unfold saveVariantToDB, bind, nextDbFault in E5. simpl in E5.
    destruct (dbFault env _) as [[]|]; simpl in E5; unfold throw, ret in E5;
      congruence. }
  do 10 eexists. split; [reflexivity|].
  split; [exact E1|]. split; [exact E2|]. split; [exact E3|].
  split; [exact E4|]. split; [reflexivity|]. split; [exact E5|]. reflexivity.
Qed.

(** X5.  Without a drawing context [generateVariant] rejects at once: no
    random number is drawn, no database request is made and the store is as it
    was. *)
Theorem generateVariant_without_context img name id opts env st :
  canvasContext env (canvases st) = false ->
  exists st',
    generateVariant img name id opts env st = (Rejected CanvasContextMissing, st') /\
    objectStore st' = objectStore st /\
    dbOps st' = dbOps st /\
    drawn st' = drawn st.
Proof.
  intros H. unfold generateVariant, bind, emit, getContext. simpl. rewrite H.
  simpl. eexists. split; [reflexivity|]. by repeat split.
Qed.

Lemma arrayAt_floor {A} (arr : list A) r :
  0 <= r -> r < 1 -> arr <> [] ->
  exists x, arrayAt arr (Math_floor (r * ofNat (length arr))) = Some x /\ x ∈ arr.
Proof.
  intros H0 H1 Hne. unfold arrayAt, Math_floor.
  assert (0 < ofNat (length arr)) as Hlen.
  { apply (ofNat_lt 0). destruct arr; [done|simpl; lia]. }
  assert (0 <= Qfloor (r * ofNat (length arr)))%Z as Hlo.
  { apply Qfloor_nonneg. nra. }
  assert (Qfloor (r * ofNat (length arr)) < Z.of_nat (length arr))%Z as Hhi.
  { rewrite Zlt_Qlt. eapply Qle_lt_trans; [apply Qfloor_le|].
    fold (ofNat (length arr)). nra. }
  rewrite decide_False by lia.
  destruct (arr !! Z.to_nat (Qfloor (r * ofNat (length arr)))) as [x|] eqn:E.
  - exists x. split; [done|]. by eapply list_elem_of_lookup_2.
  - apply lookup_ge_None in E. lia.
Qed.

Lemma overlayConfig_resolved env img name opts scale st config st' :
  overlayConfig img name opts scale env st = (Resolved config, st') ->
  let w := ofN (HTMLImageElement.width img) in
  let h := ofN (HTMLImageElement.height img) in
  let R := fun i => Math_random_at env (drawn st + i) in
  OverlayConfig.fontFamily config
    = tableAt (FONTS env) (Math_floor (R 0%nat * ofNat (length (FONTS env)))) /\
  OverlayConfig.fontSize config = (R 1%nat * 0.4 + 0.4) * scale * 30 /\
  OverlayConfig.color config
    = tableAt (COLORS env) (Math_floor (R 2%nat * ofNat (length (COLORS env)))) /\
  OverlayConfig.x config = (R 3%nat * (w * 0.8) + (w * 0.1)) * scale /\
  OverlayConfig.y config = (R 4%nat * (h * 0.8) + (h * 0.1)) * scale /\
  OverlayConfig.rotation config = R 5%nat * Math_PI * 2 /\
  OverlayConfig.upscaleFactor config = Some scale.
Proof.
  unfold overlayConfig, bind, ask, Math_random, ret. simpl. intros [= <- <-].
  simpl. rewrite Nat.add_0_r.
  replace (S (drawn st)) with (drawn st + 1)%nat by lia.
  replace (S (drawn st + 1)) with (drawn st + 2)%nat by lia.
  replace (S (drawn st + 2)) with (drawn st + 3)%nat by lia.
  replace (S (drawn st + 3)) with (drawn st + 4)%nat by lia.
  replace (S (drawn st + 4)) with (drawn st + 5)%nat by lia.
  by repeat split.
Qed.



(** X7.  With font and colour tables that are not empty the resolved
    configuration always names a font and a colour, both taken from the
    tables. *)
Theorem generateVariant_font_and_colour img name id opts env st v st' :
  unitEntropy env ->
  FONTS env <> [] -> COLORS env <> [] ->
  generateVariant img name id opts env st = (Resolved v, st') ->
  exists font colour,
    OverlayConfig.fontFamily (ImageVariant.config v) = Some font /\
    font ∈ FONTS env /\
    OverlayConfig.color (ImageVariant.config v) = Some colour /\
    colour ∈ COLORS env.
Proof.
  intros Hu Hf Hc H.
  apply generateVariant_stages in H
    as (s1 & s2 & s3 & s4 & s5 & s6 & s7 & d1 & d2 & data & _ & _ & _ & _ & H & _).
  apply overlayConfig_resolved in H as (Hfont & _ & Hcol & _).
  destruct (arrayAt_floor (FONTS env) _ (proj1 (Hu (drawn s4 + 0)%nat))
              (proj2 (Hu (drawn s4 + 0)%nat)) Hf) as (font & Efont & Hfin).
  destruct (arrayAt_floor (COLORS env) _ (proj1 (Hu (drawn s4 + 2)%nat))
              (proj2 (Hu (drawn s4 + 2)%nat)) Hc) as (colour & Ecol & Hcin).
  exists font, colour. rewrite Hfont, Hcol. by repeat split.
Qed.


(** X9.  With cloaking off the source image is drawn untransformed, no
    colour filter is applied and no random number is drawn before the noise
    stage: what is encoded is the overlay text over the noise stage's output
    on the plainly scaled image. *)
Theorem generateVariant_without_cloaking img name id opts env st v st' :
  flag (Options.marketCloaking opts) = false ->
  generateVariant img name id opts env st = (Resolved v, st') ->
  exists s s' data quality,
    drawn s = drawn st /\
    noiseStage opts
      (paintImage env img (canvasWidth img opts) (canvasHeight img opts) None)
      env s = (Resolved data, s') /\
    ImageVariant.dataUrl v
    = encode env (default image_jpeg (Options.exportFormat opts)) quality
        (canvasWidth img opts) (canvasHeight img opts)
        (paintText env (ImageVariant.config v) data).
Proof.
  intros Hoff H.
  unfold generateVariant in H. unfold bind at 1 in H. cbn [emit] in H.
  unfold bind at 1 in H. cbn [getContext canvases] in H.
  destruct (canvasContext env (canvases st)); cbn [negb] in H;
    [|unfold throw in H; discriminate H].
  unfold bind at 1 in H. cbn [ask] in H.
  unfold bind at 1 in H. unfold renderBitmap at 1 in H.
  unfold bind at 1 in H. cbn [ask] in H. unfold bind at 1 in H.
  unfold geometricJitter at 1 in H. rewrite Hoff in H.
  unfold bind at 1 in H. cbn [ask ret] in H.
  unfold bind at 1 in H. unfold chromaticShift at 1 in H. rewrite Hoff in H.
  cbn [ret] in H. unfold bind at 1 in H.
  match type of H with context [noiseStage opts ?b env ?s] =>
    destruct (noiseStage opts b env s) as [[data|] s4] eqn:E3; [|discriminate H]
  end.
  unfold bind at 1 in H.
  destruct (overlayConfig _ _ _ _ env _) as [[config|] s5] eqn:E4;
    [|discriminate H].
  cbn [ret] in H. unfold bind at 1 in H. cbn [Math_random] in H.
  unfold bind at 1 in H. cbn [Date_now] in H. unfold bind at 1 in H.
  match type of H with context [saveVariantToDB ?x env ?s] =>
    destruct (saveVariantToDB x env s) as [[b|] s8] eqn:E5; [|discriminate H]
  end.
  cbn [ret] in H. injection H as <- <-.
  eexists _, _, data, _. split; [|split; [exact E3|reflexivity]]. reflexivity.
Qed.


(** ** More on [handleGenerate] *)

Lemma tripCount_test_passes count i :
  (i < tripCount count)%nat -> ofNat i < count.
Proof.
  unfold tripCount. intros Hi.
  eapply Qle_lt_trans; [|apply Qceiling_lt].
  unfold ofNat. rewrite <- Zle_Qle. lia.
Qed.

Lemma tripCount_test_fails count i :
  (tripCount count <= i)%nat -> count <= ofNat i.
Proof.
  unfold tripCount. intros Hi.
  eapply Qle_trans; [apply Qle_ceiling|].
  unfold ofNat. rewrite <- Zle_Qle. lia.
Qed.

Lemma bind_ext {A B} (m : Task A) (k1 k2 : A -> Task B) env st :
  (forall a s, k1 a env s = k2 a env s) -> bind m k1 env st = bind m k2 env st.
Proof. intros H. unfold bind. destruct (m env st) as [[a|e] s]; [apply H|done]. Qed.

(** The loop of [handleGenerate] ends by its own test: more fuel than the
    trip count changes nothing. *)
Lemma generateLoop_fuel c img env : forall k fuel i acc st,
  (i + k = tripCount (Synthesizer.variantCount c))%nat -> (k <= fuel)%nat ->
  generateLoop fuel c img i acc env st = generateLoop k c img i acc env st.
Proof.
  induction k as [|k IH]; intros fuel i acc st Hn Hk.
  - destruct fuel as [|fuel]; [done|]. cbn [generateLoop].
    destruct (Qlt_le_dec _ _) as [Hlt|_]; [|done].
    pose proof (tripCount_test_fails (Synthesizer.variantCount c) i ltac:(lia)).
    lra.
  - destruct fuel as [|fuel]; [lia|]. cbn [generateLoop].
    destruct (Qlt_le_dec _ _) as [_|_]; [|done].
    apply bind_ext. intros now s1. apply bind_ext. intros v s2.
    apply bind_ext. intros _u s3. apply IH; lia.
Qed.

Section AnyCount.
Variables (env : Env) (c : Synthesizer.t).
Variables (url : string) (img : HTMLImageElement.t).
Hypothesis image_given : Synthesizer.baseImage c = Some url.
Hypothesis image_truthy : JsString.truthy url = true.
Hypothesis name_truthy : JsString.truthy (Synthesizer.productName c) = true.
Hypothesis image_loads : imageAt env url = Some img.
Hypothesis contexts : allContexts env.
Hypothesis no_faults : faultless env.

Lemma generateLoop_run : forall k i acc st,
  (i + k = tripCount (Synthesizer.variantCount c))%nat ->
  exists vs st',
    generateLoop k c img i acc env st = (Resolved (acc ++ vs), st') /\
    length vs = k /\
    (forall j v, vs !! j = Some v ->
       madeFor c v /\ exists now, ImageVariant.id v = variantId now (i + j)) /\
    trace st' = trace st ++ runEvents (Synthesizer.variantCount c) i vs /\
    objectStore st' = storeAll vs (objectStore st).
Proof.
  induction k as [|k IH]; intros i acc st Hn; cbn [generateLoop].
  - exists [], st. rewrite !app_nil_r. do 2 (split; [done|]). split; [|done].
    intros j v Hj. by rewrite lookup_nil in Hj.
  - destruct (Qlt_le_dec _ _) as [_|Hge].
    2: { exfalso.
         pose proof (tripCount_test_passes (Synthesizer.variantCount c) i
                       ltac:(lia)). lra. }
    unfold bind at 1. cbn [Date_now]. unfold bind at 1.
    match goal with |- context [generateVariant img ?name ?id ?opts env ?s] =>
      destruct (generateVariant_run img name id opts env s) as (r & st2 & E & H)
    end.
    rewrite contexts, no_faults in H.
    destruct H as (config & bitmap & quality & now & Hc & _ & -> & Hs & Ht).
    rewrite E. unfold bind at 1. cbn [emit].
    match goal with |- context [generateLoop k c img (i + 1) ?a env ?s] =>
      destruct (IH (i + 1)%nat a s) as (vs & st' & E' & Hlen & Hids & Ht' & Hs');
        [lia|]
    end.
    eexists (_ :: vs), st'. split; [|split; [|split; [|split]]].
    + rewrite E'. by rewrite <- app_assoc.
    + simpl. by rewrite Hlen.
    + intros [|j] v Hj.
      * injection Hj as <-. split.
        -- unfold madeFor, assembled. simpl. do 3 (split; [done|]). exact Hc.
        -- eexists. rewrite Nat.add_0_r. reflexivity.
      * destruct (Hids j v Hj) as (Hm & now' & ->). split; [done|].
        exists now'. f_equal. lia.
    + rewrite Ht'. cbn [trace]. rewrite Ht. cbn [trace runEvents assembled
        ImageVariant.id]. rewrite <- !app_assoc.
      by replace (i + 1)%nat with (S i) by lia.
    + rewrite Hs'. cbn [objectStore]. rewrite Hs. reflexivity.
Qed.

Lemma handleGenerate_run st :
  exists vs st',
    handleGenerate c env st = (Resolved tt, st') /\
    length vs = tripCount (Synthesizer.variantCount c) /\
    (forall j v, vs !! j = Some v ->
       madeFor c v /\ exists now, ImageVariant.id v = variantId now j) /\
    trace st' = trace st ++
      [SetIsGenerating true; SetProgress 0]
      ++ runEvents (Synthesizer.variantCount c) 0 vs
      ++ [OnVariantsGenerated vs (Synthesizer.autoNavigate c);
          SetIsGenerating false] /\
    objectStore st' = storeAll vs (objectStore st).
Proof.
  unfold handleGenerate. rewrite image_given, image_truthy, name_truthy.
  cbn [negb orb].
  unfold bind at 1. cbn [emit]. unfold bind at 1. cbn [emit].
  unfold try_finally, try_catch. unfold bind at 1.
  unfold loadImage at 1. unfold bind at 1. cbn [ask]. rewrite image_loads.
  cbn [ret]. unfold bind at 1.
  match goal with |- context [generateLoop ?n c img 0 [] env ?s] =>
    destruct (generateLoop_run n 0%nat [] s)
      as (vs & st1 & E & Hlen & Hids & Ht & Hs); [lia|]
  end.
  rewrite E. cbn [emit app]. cbn [trace] in Ht. cbn [objectStore] in Hs.
  exists vs. eexists. split; [reflexivity|]. cbn [trace objectStore].
  split; [done|]. split; [exact Hids|]. split; [|done].
  rewrite Ht. rewrite <- !app_assoc. reflexivity.
Qed.

Lemma storeAll_other vs : forall m k,
  k ∉ ImageVariant.id <$> vs -> storeAll vs m !! k = m !! k.
Proof.
  induction vs as [|a vs IH]; intros m k Hk; [done|].
  rewrite fmap_cons, not_elem_of_cons in Hk. destruct Hk as [Hne Hk].
  unfold storeAll. simpl. fold (storeAll vs (<[ImageVariant.id a := a]> m)).
  rewrite IH by done. by rewrite lookup_insert_ne.
Qed.

Lemma storeAll_lookup vs : forall m v,
  NoDup (ImageVariant.id <$> vs) -> v ∈ vs ->
  storeAll vs m !! ImageVariant.id v = Some v.
Proof.
  induction vs as [|a vs IH]; intros m v Hnd Hv; [by apply elem_of_nil in Hv|].
  rewrite fmap_cons in Hnd. apply NoDup_cons in Hnd as [Ha Hnd].
  unfold storeAll. simpl. fold (storeAll vs (<[ImageVariant.id a := a]> m)).
  apply elem_of_cons in Hv as [->|Hv].
  - rewrite storeAll_other by done. apply lookup_insert_eq.
  - by apply IH.
Qed.

Lemma batch_ids_distinct (vs : list ImageVariant.t) :
  (forall j v, vs !! j = Some v ->
     madeFor c v /\ exists now, ImageVariant.id v = variantId now j) ->
  NoDup (ImageVariant.id <$> vs).
Proof.
  intros Hids. apply NoDup_alt. intros i j x Hi Hj.
  rewrite list_lookup_fmap in Hi, Hj.
  destruct (vs !! i) as [vi|] eqn:Ei; [|done].
  destruct (vs !! j) as [vj|] eqn:Ej; [|done].
  injection Hi as <-. injection Hj as Hj.
  destruct (Hids i vi Ei) as (_ & ti & Hti).
  destruct (Hids j vj Ej) as (_ & tj & Htj).
  rewrite Hti, Htj in Hj. symmetry. by eapply variantId_inj.
Qed.


(** X12.  After a run that meets no failure the ids of the batch are
    pairwise distinct, the store holds every variant of the batch under its
    id, what it held under other ids is untouched, and a [getAll] that
    follows returns every variant of the batch. *)
Theorem handleGenerate_batch_persisted st :
  exists vs st' all st'',
    handleGenerate c env st = (Resolved tt, st') /\
    delivered (trace st') = delivered (trace st) ++ [vs] /\
    NoDup (ImageVariant.id <$> vs) /\
    (forall v, v ∈ vs -> objectStore st' !! ImageVariant.id v = Some v) /\
    (forall k, k ∉ ImageVariant.id <$> vs ->
       objectStore st' !! k = objectStore st !! k) /\
    getAllVariantsFromDB env st' = (Resolved all, st'') /\
    (forall v, v ∈ vs -> v ∈ all).
Proof.
  destruct (handleGenerate_run st) as (vs & st' & E & Hlen & Hids & Ht & Hs).
  pose proof (batch_ids_distinct vs Hids) as Hnd.
  assert (forall v, v ∈ vs -> objectStore st' !! ImageVariant.id v = Some v)
    as Hin.
  { intros v Hv. rewrite Hs. by apply storeAll_lookup. }
  exists vs, st'. eexists _, _. split; [exact E|]. split.
  { rewrite Ht. unfold delivered. rewrite !omap_app.
    fold (delivered (runEvents (Synthesizer.variantCount c) 0 vs)).
    rewrite delivered_runEvents. cbn. reflexivity. }
  split; [exact Hnd|]. split; [exact Hin|]. split.
  { intros k Hk. rewrite Hs. by apply storeAll_other. }
  split.
  { unfold getAllVariantsFromDB, bind, nextDbFault. simpl.
    rewrite no_faults. simpl. reflexivity. }
  intros v Hv. apply list_elem_of_fmap. exists (ImageVariant.id v, v).
  split; [done|]. apply elem_of_map_to_list. by apply Hin.
Qed.

(** X13.  Every variant of a batch is pending and records the settings of
    the component that made it: its product name, opacity, export format,
    texture intensity, batch number, date flag and tags, and the upscale
    factor, 1 standing in for a factor of 0. *)
Theorem handleGenerate_records_settings st :
  exists vs st',
    handleGenerate c env st = (Resolved tt, st') /\
    delivered (trace st') = delivered (trace st) ++ [vs] /\
    forall v, v ∈ vs ->
      let config := ImageVariant.config v in
      ImageVariant.status v = pending /\
      ImageVariant.tags v = Some (Synthesizer.tags c) /\
      OverlayConfig.text config = Synthesizer.productName c /\
      OverlayConfig.opacity config = Some (Synthesizer.opacity c) /\
      OverlayConfig.exportFormat config = Some (Synthesizer.exportFormat c) /\
      OverlayConfig.textureIntensity config
        = Some (Synthesizer.textureIntensity c) /\
      OverlayConfig.batchNumber config = Some (Synthesizer.batchNumber c) /\
      OverlayConfig.showDate config = Some (Synthesizer.showDate c) /\
      OverlayConfig.upscaleFactor config
        = Some (if Qeq_bool (Synthesizer.upscaleFactor c) 0 then 1
                else Synthesizer.upscaleFactor c).
Proof.
  destruct (handleGenerate_run st) as (vs & st' & E & Hlen & Hids & Ht & Hs).
  exists vs, st'. split; [exact E|]. split.
  { rewrite Ht. unfold delivered. rewrite !omap_app.
    fold (delivered (runEvents (Synthesizer.variantCount c) 0 vs)).
    rewrite delivered_runEvents. cbn. reflexivity. }
  intros v Hv config. apply list_elem_of_lookup in Hv as (j & Hj).
  destruct (Hids j v Hj) as ((Hst & Htags & _ & Hc) & _).
  destruct Hc as (Htext & Hop & Hfmt & Hup & Hti & Hbn & Hsd).
  fold config in Htext, Hop, Hfmt, Hup, Hti, Hbn, Hsd.
  by repeat split.
Qed.

End AnyCount.

(** X14.  Without a base image, with an empty one or with an empty product
    name [handleGenerate] does nothing at all. *)
Theorem handleGenerate_guard env (c : Synthesizer.t) st :
  Synthesizer.baseImage c = None \/
  Synthesizer.baseImage c = Some EmptyString \/
  Synthesizer.productName c = EmptyString ->
  handleGenerate c env st = (Resolved tt, st).
Proof.
  unfold handleGenerate. intros [->|[->| ->]]; [done|done|].
  destruct (Synthesizer.baseImage c) as [u|]; [|done].
  by rewrite orb_true_r.
Qed.

(** X15.  When the base image does not load nothing is generated:
    [generateVariant] is never called, the store is untouched, the failure is
    logged, [isGenerating] is reset, and [handleGenerate] itself resolves. *)
Theorem handleGenerate_image_fails env (c : Synthesizer.t) st url :
  Synthesizer.baseImage c = Some url ->
  JsString.truthy url = true ->
  JsString.truthy (Synthesizer.productName c) = true ->
  imageAt env url = None ->
  exists st',
    handleGenerate c env st = (Resolved tt, st') /\
    trace st' = trace st ++ [SetIsGenerating true; SetProgress 0;
                             ConsoleError ImageLoadFailed; SetIsGenerating false] /\
    objectStore st' = objectStore st /\
    dbOps st' = dbOps st.
Proof.
  intros Hb Hu Hn Hi. unfold handleGenerate. rewrite Hb, Hu, Hn. cbn [negb orb].
  unfold bind, emit, try_finally, try_catch, loadImage, bind, ask. simpl.
  rewrite Hi. unfold throw. simpl. eexists. split; [reflexivity|]. simpl.
  rewrite <- !app_assoc. by repeat split.
Qed.

(** ** The application shell *)

Lemma insertBy_Permutation {A} (cmp : A -> A -> Z) x l :
  insertBy cmp x l ≡ₚ x :: l.
Proof.
  induction l as [|y l IH]; simpl; [done|].
  destruct (cmp x y <=? 0)%Z; [done|]. rewrite IH. apply Permutation_swap.
Qed.

Lemma Array_sort_Permutation {A} (cmp : A -> A -> Z) l : Array_sort cmp l ≡ₚ l.
Proof.
  induction l as [|x l IH]; simpl; [done|].
  rewrite insertBy_Permutation. by rewrite IH.
Qed.

Lemma insertBy_newest x l :
  StronglySorted newerFirst l -> StronglySorted newerFirst (insertBy byNewest x l).
Proof.
  induction 1 as [|y l Hs IH Hy]; simpl; [by repeat constructor|].
  destruct (byNewest x y <=? 0)%Z eqn:E.
  - apply Z.leb_le in E. unfold byNewest in E.
    constructor; [by constructor|]. constructor; [unfold newerFirst; lia|].
    eapply Forall_impl; [exact Hy|]. unfold newerFirst. intros z Hz. lia.
  - apply Z.leb_gt in E. unfold byNewest in E. constructor; [done|].
    rewrite insertBy_Permutation. constructor; [unfold newerFirst; lia|done].
Qed.

Lemma Array_sort_newest l : StronglySorted newerFirst (Array_sort byNewest l).
Proof.
  induction l as [|x l IH]; simpl; [constructor|]. by apply insertBy_newest.
Qed.

(** X16.  [loadHistory] never rejects and always ends the loading state.
    When the read succeeds and the store is not empty the variants become the
    stored ones, each once, from the newest to the oldest; when the store is
    empty the variants are left as they are. *)
Theorem loadHistory_sorted env st app :
  dbFault env (dbOps st) = None ->
  exists app' st',
    loadHistory app env st = (Resolved app', st') /\
    App.isLoadingHistory app' = false /\
    App.activeSection app' = App.activeSection app /\
    objectStore st' = objectStore st /\
    (objectStore st = ∅ -> App.variants app' = App.variants app) /\
    (objectStore st <> ∅ ->
       App.variants app' ≡ₚ (map_to_list (objectStore st)).*2 /\
       StronglySorted newerFirst (App.variants app')).
Proof.
  intros Hf. unfold loadHistory, try_catch. unfold bind at 1. unfold bind at 1.
  rewrite getAllVariantsFromDB_ok by done.
  destruct (0 <? length (map_to_list (objectStore st)).*2)%nat eqn:E;
    cbn [ret]; eexists _, _; (split; [reflexivity|]); cbn;
    do 3 (split; [done|]).
  - apply Nat.ltb_lt in E. split.
    + intros Hempty. rewrite Hempty, map_to_list_empty in E. simpl in E. lia.
    + intros _. split; [apply Array_sort_Permutation|apply Array_sort_newest].
  - apply Nat.ltb_ge in E. split; [done|]. intros Hne. exfalso. apply Hne.
    apply map_to_list_empty_iff. rewrite length_fmap in E.
    by apply nil_length_inv; lia.
Qed.

(** X17.  When the read of the history fails [loadHistory] still resolves:
    it logs the error, leaves the variants as they are and ends the loading
    state. *)
Theorem loadHistory_read_fails env st app f :
  dbFault env (dbOps st) = Some f ->
  exists st',
    loadHistory app env st
    = (Resolved (App.mk (App.activeSection app) (App.variants app) false
                   (App.clearKey app)), st') /\
    trace st' = trace st ++ [ConsoleError (DbError f)] /\
    objectStore st' = objectStore st.
Proof.
  intros Hf. unfold loadHistory, try_catch, getAllVariantsFromDB, bind,
    nextDbFault. simpl. rewrite Hf.
  destruct f; simpl; eexists; (split; [reflexivity|]); by split.
Qed.

Lemma Map_set_keys {A} k (v : A) m :
  NoDup m.*1 -> NoDup (Map_set k v m).*1 /\
  list_to_map (M := gmap string A) (Map_set k v m) = <[k := v]> (list_to_map m).
Proof.
  induction m as [|[k' v'] m IH]; simpl; intros Hnd.
  - split; [by apply NoDup_singleton|done].
  - apply NoDup_cons in Hnd as [Hk' Hnd]. destruct (IH Hnd) as [IH1 IH2].
    destruct (decide (k' = k)) as [->|Hne]; simpl.
    + split; [by apply NoDup_cons|]. by rewrite insert_insert_eq.
    + split.
      * apply NoDup_cons. split; [|done].
        intros Hin. apply list_elem_of_fmap in Hin as ([k1 v1] & Hk1 & Hin).
        simpl in Hk1. subst k1.
        assert (list_to_map (M := gmap string A) (Map_set k v m) !! k' = Some v1)
          as Hl by (by apply elem_of_list_to_map).
        rewrite IH2, lookup_insert_ne in Hl by done.
        apply elem_of_list_to_map in Hl; [|done].
        apply Hk'. apply list_elem_of_fmap. by exists (k', v1).
      * rewrite IH2. by apply insert_insert_ne.
Qed.

Lemma Map_set_all (l : list ImageVariant.t) : forall m,
  NoDup m.*1 ->
  let m' := foldl (fun m v => Map_set (ImageVariant.id v) v m) m l in
  NoDup m'.*1 /\
  list_to_map (M := gmap string ImageVariant.t) m' = storeAll l (list_to_map m).
Proof.
  induction l as [|v l IH]; intros m Hnd; simpl; [done|].
  destruct (Map_set_keys (ImageVariant.id v) v m Hnd) as [H1 H2].
  destruct (IH _ H1) as [H3 H4]. split; [done|]. rewrite H4, H2. reflexivity.
Qed.

Lemma storeAll_lastWrite l : forall m k,
  storeAll l m !! k = lastWrite (Put <$> l) k (m !! k).
Proof.
  induction l as [|v l IH]; intros m k; [done|].
  unfold storeAll. simpl. fold (storeAll l (<[ImageVariant.id v := v]> m)).
  rewrite IH. f_equal. rewrite lookup_insert. by destruct (decide _).
Qed.

(** X18.  [handleValidationComplete] merges by id: the new list has no two
    variants with one id, it holds exactly the variants that come last under
    their id in the old list followed by the updated ones (an updated variant
    replaces the old one with its id, the others are kept), and it is sorted
    from the newest to the oldest. *)
Theorem handleValidationComplete_merges updated app :
  let result := App.variants (handleValidationComplete updated app) in
  NoDup (ImageVariant.id <$> result) /\
  (forall v, v ∈ result <->
     lastWrite (Put <$> (App.variants app ++ updated)) (ImageVariant.id v) None
     = Some v) /\
  StronglySorted newerFirst result /\
  App.activeSection (handleValidationComplete updated app) = App.activeSection app.
Proof.
  intros result. unfold result, handleValidationComplete. cbn [App.variants].
  set (step := fun (m : list (string * ImageVariant.t)) v =>
                 Map_set (ImageVariant.id v) v m).
  assert (Map_of (map (fun v => (ImageVariant.id v, v)) (App.variants app))
          = foldl step [] (App.variants app)) as ->.
  { unfold Map_of. generalize (@nil (string * ImageVariant.t)).
    induction (App.variants app) as [|v l IH]; intros m; [done|]. simpl.
    apply IH. }
  rewrite <- foldl_app.
  destruct (Map_set_all (App.variants app ++ updated) [] (NoDup_nil_2))
    as [Hnd Hmap].
  fold step in Hnd, Hmap. set (m := foldl step [] (App.variants app ++ updated)) in *.
  assert (forall k v, (k, v) ∈ m <->
            lastWrite (Put <$> (App.variants app ++ updated)) k None = Some v)
    as Hin.
  { intros k v. rewrite (elem_of_list_to_map (M := gmap string))
      by done. rewrite Hmap, storeAll_lastWrite. simpl. by rewrite lookup_empty. }
  assert (forall k v, (k, v) ∈ m -> ImageVariant.id v = k) as Hkey.
  { intros k v Hkv. apply Hin in Hkv.
    eapply lastWrite_keyed; [|exact Hkv]. done. }
  assert (ImageVariant.id <$> Map_values m = m.*1) as Hids.
  { unfold Map_values. rewrite <- list_fmap_compose. apply list_fmap_ext.
    intros i [k v] Hi. simpl. apply Hkey. by eapply list_elem_of_lookup_2. }
  split; [|split; [|split]].
  - rewrite Array_sort_Permutation. by rewrite Hids.
  - intros v. rewrite Array_sort_Permutation. unfold Map_values.
    rewrite list_elem_of_fmap. split.
    + intros ([k v'] & -> & Hkv). simpl. rewrite (Hkey _ _ Hkv). by apply Hin.
    + intros Hv. exists (ImageVariant.id v, v). split; [done|]. by apply Hin.
  - apply Array_sort_newest.
  - done.
Qed.


(** ** The validator *)

Section Simulation.
Context (mock : Mock) (env : Env) (inRange : Q -> Prop).
Hypothesis draws : forall k, inRange (Math_random_at env k).

Lemma quietly_draw : quietly env Math_random inRange.
Proof.
  intros st. eexists _, _. split; [reflexivity|].
  split; [apply draws|by repeat split].
Qed.

Lemma quietly_addLog msg error logs :
  quietly env (addLog mock msg error logs) (fun l => (length l <= 15)%nat).
Proof.
  unfold addLog. eapply quietly_bind; [apply quietly_Date_now|]. intros now _.
  apply quietly_ret. rewrite length_take. lia.
Qed.

Lemma assigned_at {A} (upd upd' : list A) i v u :
  upd !! i = Some v ->
  take (S i) upd' = take (S i) (<[i := u]> upd) ->
  take i upd' = take i upd /\ drop i upd' = u :: drop (S i) upd'.
Proof.
  intros Eu Ht. split.
  - assert (forall l : list A, take i l = take i (take (S i) l)) as E.
    { intros l. rewrite take_take. f_equal. lia. }
    rewrite (E upd'), Ht, <- E. apply take_insert_ge. lia.
  - apply drop_S. rewrite <- (lookup_take_lt upd' (S i) i) by lia. rewrite Ht.
    rewrite lookup_take_lt by lia. apply list_lookup_insert_eq.
    by eapply lookup_lt_Some.
Qed.

Lemma simulationLoop_spec variants fuel : forall i upd errs vs,
  drop i upd = drop i variants ->
  length upd = length variants ->
  (length variants <= i + fuel)%nat ->
  (length (Validator.logs vs) <= 15)%nat ->
  quietly env (simulationLoop mock fuel variants i upd errs vs)
    (fun out =>
       take i out.1.1 = take i upd /\
       Forall2 (validated mock inRange) (drop i variants) (drop i out.1.1) /\
       out.1.2 = errs ++ failuresOf (drop i out.1.1) /\
       (length (Validator.logs out.2) <= 15)%nat /\
       Validator.isRunning out.2 = Validator.isRunning vs /\
       Validator.summary out.2 = Validator.summary vs /\
       length out.1.1 = length variants /\
       Validator.results out.2
       = (if decide (i < length variants)%nat then out.1.1
          else Validator.results vs)).
Proof.
  assert (forall i upd errs vs,
            length upd = length variants -> (length variants <= i)%nat ->
            (length (Validator.logs vs) <= 15)%nat ->
            quietly env (ret (upd, errs, vs))
              (fun out =>
                 take i out.1.1 = take i upd /\
                 Forall2 (validated mock inRange) (drop i variants)
                   (drop i out.1.1) /\
                 out.1.2 = errs ++ failuresOf (drop i out.1.1) /\
                 (length (Validator.logs out.2) <= 15)%nat /\
                 Validator.isRunning out.2 = Validator.isRunning vs /\
                 Validator.summary out.2 = Validator.summary vs /\
                 length out.1.1 = length variants /\
                 Validator.results out.2
                 = (if decide (i < length variants)%nat then out.1.1
                    else Validator.results vs))) as Hdone.
  { intros i upd errs vs Hlen Hi Hlogs. apply quietly_ret. simpl.
    rewrite !drop_ge by lia. rewrite app_nil_r, decide_False by lia.
    by repeat split. }
  induction fuel as [|fuel IH]; intros i upd errs vs Hdrop Hlen Hfuel Hlogs.
  { simpl. apply Hdone; [done|lia|done]. }
  simpl. destruct (variants !! i) as [v|] eqn:Ev.
  2: { apply lookup_ge_None in Ev. by apply Hdone. }
  assert (upd !! i = Some v) as Eu.
  { rewrite <- (Nat.add_0_r i), <- lookup_drop, Hdrop, lookup_drop, Nat.add_0_r.
    done. }
  assert (i < length variants)%nat as Hi by (by eapply lookup_lt_Some).
  assert (forall u, drop (i + 1) (<[i := u]> upd) = drop (i + 1) variants)
    as Hrest.
  { intros u. rewrite drop_insert_lt by lia.
    by rewrite <- !(drop_drop _ 1 i), Hdrop. }
  assert (drop i variants = v :: drop (S i) variants) as Hv by (by apply drop_S).
  eapply quietly_bind; [apply quietly_ask|]. intros env0 ->.
  eapply quietly_bind; [apply quietly_addLog|]. intros logs1 Hl1.
  eapply quietly_bind; [apply quietly_draw|]. intros r Hr.
  unfold assign. rewrite Eu. destruct (Qlt_le_dec r 0.05).
  - eapply quietly_bind; [apply quietly_draw|]. intros r' Hr'. cbv zeta.
    eapply quietly_bind; [apply quietly_addLog|]. intros logs2 Hl2.
    eapply quietly_mono.
    { apply IH; [apply Hrest|by rewrite length_insert|lia|done]. }
    intros [[upd' errs'] vs'] (Ht & Hf & He & Hl & Hrun & Hsum & Hlen' & Hres).
    cbn [fst snd Validator.logs Validator.isRunning Validator.summary
           Validator.results] in *.
    rewrite Nat.add_1_r in Ht, Hf, He, Hres.
    destruct (assigned_at _ _ _ _ _ Eu Ht) as [Ht' Hd].
    rewrite Hd, Hv. split; [done|]. split.
    { constructor; [|done]. left. by exists r'. }
    split.
    { by rewrite He, <- app_assoc. }
    do 4 (split; [done|]). rewrite decide_True by done.
    destruct (decide (S i < length variants)%nat) as [Hlt|Hge]; [done|].
    rewrite Hres, <- (take_ge upd' (S i)), Ht by lia.
    symmetry. apply take_ge. rewrite length_insert. lia.
  - eapply quietly_bind; [apply quietly_draw|]. intros r1 Hr1.
    eapply quietly_bind; [apply quietly_draw|]. intros r2 Hr2. cbv zeta.
    eapply quietly_bind; [apply quietly_addLog|]. intros logs2 Hl2.
    eapply quietly_mono.
    { apply IH; [apply Hrest|by rewrite length_insert|lia|done]. }
    intros [[upd' errs'] vs'] (Ht & Hf & He & Hl & Hrun & Hsum & Hlen' & Hres).
    cbn [fst snd Validator.logs Validator.isRunning Validator.summary
           Validator.results] in *.
    rewrite Nat.add_1_r in Ht, Hf, He, Hres.
    destruct (assigned_at _ _ _ _ _ Eu Ht) as [Ht' Hd].
    rewrite Hd, Hv. split; [done|]. split.
    { constructor; [|done]. right. by exists r1, r2. }
    split.
    { by rewrite He. }
    do 4 (split; [done|]). rewrite decide_True by done.
    destruct (decide (S i < length variants)%nat) as [Hlt|Hge]; [done|].
    rewrite Hres, <- (take_ge upd' (S i)), Ht by lia.
    symmetry. apply take_ge. rewrite length_insert. lia.
Qed.

Lemma startSimulation_spec v rest vs :
  quietly env (startSimulation mock (v :: rest) vs)
    (fun out =>
       exists updated,
         out.2 = Some updated /\
         Forall2 (validated mock inRange) (v :: rest) updated /\
         (length (Validator.logs out.1) <= 15)%nat /\
         out.1 = Validator.mk false (-1) (Validator.logs out.1) updated
                   (Some (Validator.mkSummary (length (v :: rest))
                            (Z.of_nat (length (v :: rest))
                             - Z.of_nat (length (failuresOf updated)))
                            (length (failuresOf updated))
                            (failuresOf updated)))).
Proof.
  unfold startSimulation. cbn [length Nat.eqb].
  eapply quietly_bind; [apply quietly_addLog|]. intros l1 H1.
  eapply quietly_bind; [apply quietly_addLog|]. intros l2 H2.
  eapply quietly_bind.
  { apply (simulationLoop_spec (v :: rest) (S (length rest)) 0 (v :: rest) []);
      [done|done|cbn [length]; lia|done]. }
  intros [[upd errs] vs'] (Ht & Hf & He & Hl & Hrun & Hsum & Hlen & Hres).
  cbn [fst snd Validator.logs Validator.isRunning Validator.summary
         Validator.results] in *.
  rewrite decide_True in Hres by (cbn [length]; lia).
  rewrite !drop_0 in *. rewrite app_nil_l in He. subst errs.
  eapply quietly_bind; [apply quietly_addLog|]. intros l3 H3.
  apply quietly_ret. exists upd. cbn [fst snd Validator.logs].
  rewrite Hres. by repeat split.
Qed.

End Simulation.

Lemma validated_status mock inRange a u :
  validated mock inRange a u ->
  ImageVariant.status u = completed \/ ImageVariant.status u = failed.
Proof. intros [(r & _ & ->)|(r1 & r2 & _ & _ & ->)]; [by right|by left]. Qed.

Lemma completed_or_failed (l : list ImageVariant.t) :
  Forall (fun u => ImageVariant.status u = completed \/
                   ImageVariant.status u = failed) l ->
  (length (filter (fun u => ImageVariant.status u = completed) l)
   + length (filter (fun u => ImageVariant.status u = failed) l))%nat
  = length l.
Proof.
  induction 1 as [|u l [Hu|Hu] _ IH]; [done| |]; rewrite !filter_cons, Hu;
    simpl; lia.
Qed.

(** X20.  [startSimulation] on a list that is not empty never rejects and
    touches neither the store nor the trace.  It hands one updated variant per
    input variant, in the same order: each keeps its id, image, configuration,
    timestamp and tags and is either completed, keeping an earlier error
    message, or failed, keeping the earlier price and shipping; none stays
    pending.  The component ends idle, shows the updated list and keeps at most
    15 log lines. *)
Theorem startSimulation_results mock env v rest vs :
  quietly env (startSimulation mock (v :: rest) vs)
    (fun out =>
       exists updated,
         out.2 = Some updated /\
         Validator.results out.1 = updated /\
         Validator.isRunning out.1 = false /\
         Validator.currentIndex out.1 = (-1)%Z /\
         (length (Validator.logs out.1) <= 15)%nat /\
         Forall2 (fun a u =>
                    ImageVariant.id u = ImageVariant.id a /\
                    ImageVariant.dataUrl u = ImageVariant.dataUrl a /\
                    ImageVariant.blobUrl u = ImageVariant.blobUrl a /\
                    ImageVariant.config u = ImageVariant.config a /\
                    ImageVariant.timestamp u = ImageVariant.timestamp a /\
                    ImageVariant.tags u = ImageVariant.tags a /\
                    (ImageVariant.status u = completed /\
                     ImageVariant.errorMessage u = ImageVariant.errorMessage a \/
                     ImageVariant.status u = failed /\
                     ImageVariant.detectedPrice u = ImageVariant.detectedPrice a /\
                     ImageVariant.detectedShipping u
                     = ImageVariant.detectedShipping a))
           (v :: rest) updated).
Proof.
  eapply quietly_mono;
    [apply (startSimulation_spec mock env (fun _ => True)); done|].
  intros [vs' handed] (updated & Hh & Hf & Hl & Hvs). exists updated.
  cbn [fst snd] in *. rewrite Hvs. cbn [Validator.results Validator.isRunning
    Validator.currentIndex]. rewrite Hvs in Hl. do 5 (split; [done|]).
  eapply Forall2_impl; [exact Hf|].
  intros a u [(r & _ & ->)|(r1 & r2 & _ & _ & ->)]; cbn;
    do 6 (split; [done|]); [right|left]; done.
Qed.

(** X21.  The summary [startSimulation] leaves agrees with the variants it
    hands over: the total is their number, the failed count is the number of
    failed ones, the success count is the number of completed ones, and the
    error list names the failed ones, in order, with their messages. *)
Theorem startSimulation_summary mock env v rest vs :
  quietly env (startSimulation mock (v :: rest) vs)
    (fun out =>
       exists updated s,
         out.2 = Some updated /\
         Validator.summary out.1 = Some s /\
         Validator.total s = length updated /\
         Validator.failed s
         = length (filter (fun u => ImageVariant.status u = failed) updated) /\
         Validator.success s
         = Z.of_nat
             (length (filter (fun u => ImageVariant.status u = completed)
                        updated)) /\
         Validator.errors s = failuresOf updated).
Proof.
  eapply quietly_mono;
    [apply (startSimulation_spec mock env (fun _ => True)); done|].
  intros [vs' handed] (updated & Hh & Hf & Hl & Hvs).
  cbn [fst snd] in *. rewrite Hvs. eexists updated, _.
  cbn [Validator.summary]. split; [done|]. split; [reflexivity|].
  cbn [Validator.total Validator.failed Validator.success Validator.errors].
  pose proof (Forall2_length _ _ _ Hf) as Hlen.
  assert (length (failuresOf updated)
          = length (filter (fun u => ImageVariant.status u = failed) updated))
    as Hfail by apply length_fmap.
  assert (Forall (fun u => ImageVariant.status u = completed \/
                           ImageVariant.status u = failed) updated) as Hst.
  { apply Forall_forall. intros u Hu.
    apply list_elem_of_lookup in Hu as [i Hu].
    destruct (Forall2_lookup_r _ _ _ _ _ Hf Hu) as (a & _ & Hv).
    by eapply validated_status. }
  apply completed_or_failed in Hst. rewrite Hfail.
  split; [done|]. split; [done|]. split; [lia|done].
Qed.

(** X22.  When every random draw lies in [0, 1) and the tables of prices and
    shipping fees are not empty, every failed variant that
    [startSimulation] hands over carries one of the five [ERROR_TYPES] and
    every completed one a price and a shipping fee of the tables. *)
Theorem startSimulation_draws mock env v rest vs :
  unitEntropy env -> MOCK_PRICES mock <> [] -> MOCK_SHIPPING mock <> [] ->
  quietly env (startSimulation mock (v :: rest) vs)
    (fun out =>
       exists updated,
         out.2 = Some updated /\
         Forall (fun u =>
                   (ImageVariant.status u = failed /\
                    exists e, ImageVariant.errorMessage u = Some e /\
                              e ∈ ERROR_TYPES) \/
                   (ImageVariant.status u = completed /\
                    exists p s,
                      ImageVariant.detectedPrice u = Some p /\
                      p ∈ MOCK_PRICES mock /\
                      ImageVariant.detectedShipping u = Some s /\
                      s ∈ MOCK_SHIPPING mock))
           updated).
Proof.
  intros Hunit Hp Hs.
  eapply quietly_mono;
    [apply (startSimulation_spec mock env (fun r => 0 <= r /\ r < 1)); done|].
  intros [vs' handed] (updated & Hh & Hf & Hl & Hvs). exists updated.
  split; [done|]. apply Forall_forall. intros u Hu.
  apply list_elem_of_lookup in Hu as [i Hu].
  destruct (Forall2_lookup_r _ _ _ _ _ Hf Hu) as (a & _ & Hv).
  destruct Hv as [(r & [H0 H1] & ->)|(r1 & r2 & [H0 H1] & [H2 H3] & ->)].
  - left. split; [done|].
    destruct (arrayAt_floor ERROR_TYPES r H0 H1 ltac:(done)) as (e & He & Hin).
    exists e. cbn [markFailed ImageVariant.errorMessage]. by rewrite He.
  - right. split; [done|].
    destruct (arrayAt_floor _ r1 H0 H1 Hp) as (p & Ep & Hpin).
    destruct (arrayAt_floor _ r2 H2 H3 Hs) as (s & Es & Hsin).
    exists p, s. cbn [markCompleted ImageVariant.detectedPrice
                        ImageVariant.detectedShipping].
    by rewrite Ep, Es.
Qed.

Lemma startSimulation_draws_witness :
  unitEntropy (sampleEnv 0.25 noFaults) /\
  MOCK_PRICES sampleMock <> [] /\ MOCK_SHIPPING sampleMock <> [] /\
  quietly (sampleEnv 0.25 noFaults)
    (startSimulation sampleMock [sampleVariant "cloaked-1700000000000-0" image_jpeg]
       (Validator.mk false (-1) [] [] None))
    (fun out =>
       exists updated,
         out.2 = Some updated /\
         Forall (fun u =>
                   (ImageVariant.status u = failed /\
                    exists e, ImageVariant.errorMessage u = Some e /\
                              e ∈ ERROR_TYPES) \/
                   (ImageVariant.status u = completed /\
                    exists p s,
                      ImageVariant.detectedPrice u = Some p /\
                      p ∈ MOCK_PRICES sampleMock /\
                      ImageVariant.detectedShipping u = Some s /\
                      s ∈ MOCK_SHIPPING sampleMock))
           updated).
Proof.
  assert (unitEntropy (sampleEnv 0.25 noFaults)) as Hunit.
  { intros k. simpl. split; lra. }
  split; [exact Hunit|]. split; [discriminate|]. split; [discriminate|].
  apply startSimulation_draws; [exact Hunit|discriminate|discriminate].
Defined.

(** ** The insights *)

Lemma cheaper_cases prev curr :
  (cheaper prev curr = prev \/ cheaper prev curr = curr) /\
  shippingOr999 (cheaper prev curr) <= shippingOr999 prev /\
  shippingOr999 (cheaper prev curr) <= shippingOr999 curr.
Proof.
  unfold cheaper. destruct (Qlt_le_dec _ _); (split; [auto|]); split; lra.
Qed.

Lemma bestOf_least rest : forall first,
  bestOf first rest ∈ first :: rest /\
  Forall (fun v => shippingOr999 (bestOf first rest) <= shippingOr999 v)
    (first :: rest).
Proof.
  induction rest as [|x rest IH]; intros first.
  - split; [by left|]. constructor; [simpl; lra|constructor].
  - unfold bestOf. simpl. fold (bestOf (cheaper first x) rest).
    destruct (IH (cheaper first x)) as [Hin Hle].
    destruct (cheaper_cases first x) as (Hc & H1 & H2).
    apply Forall_cons in Hle as [Hb Hle]. split.
    + apply elem_of_cons in Hin as [->|Hin].
      * destruct Hc as [-> | ->]; [by left|right; by left].
      * right. by right.
    + constructor; [lra|]. constructor; [lra|done].
Qed.

Lemma elem_of_completedOf v variants :
  v ∈ completedOf variants <-> v ∈ variants /\ ImageVariant.status v = completed.
Proof.
  unfold completedOf. rewrite !list_elem_of_In, filter_In.
  by rewrite bool_decide_eq_true.
Qed.

Lemma analyzedData_least variants :
  match analyzedData variants with
  | None => Forall (fun v => ImageVariant.status v <> completed) variants
  | Some (best, total) =>
      best ∈ variants /\ ImageVariant.status best = completed /\
      total = length (completedOf variants) /\ (0 < total)%nat /\
      Forall (fun v => ImageVariant.status v = completed ->
                       shippingOr999 best <= shippingOr999 v) variants
  end.
Proof.
  unfold analyzedData. destruct (completedOf variants) as [|first rest] eqn:E.
  - apply Forall_forall. intros v Hv Hs.
    assert (v ∈ completedOf variants) as Hin by (by apply elem_of_completedOf).
    rewrite E in Hin. by apply elem_of_nil in Hin.
  - destruct (bestOf_least rest first) as [Hin Hle]. rewrite <- E in Hin, Hle.
    apply elem_of_completedOf in Hin as [Hin Hs].
    split; [done|]. split; [done|]. split; [done|]. split; [simpl; lia|].
    apply Forall_forall. intros v Hv Hc.
    rewrite Forall_forall in Hle. apply Hle. by apply elem_of_completedOf.
Qed.

(** X23.  [analyzedData] is [null] exactly when no variant is completed.
    Otherwise its best variant is one of the completed variants, none of which
    has a smaller shipping fee when a missing or zero fee is read as 999, and
    its total is the number of completed variants. *)
Theorem analyzedData_best variants :
  (analyzedData variants = None <->
   Forall (fun v => ImageVariant.status v <> completed) variants) /\
  forall best total,
    analyzedData variants = Some (best, total) ->
    best ∈ variants /\ ImageVariant.status best = completed /\
    total = length (completedOf variants) /\
    Forall (fun v => ImageVariant.status v = completed ->
                     shippingOr999 best <= shippingOr999 v) variants.
Proof.
  pose proof (analyzedData_least variants) as H. split.
  - destruct (analyzedData variants) as [[best total]|]; [|done].
    destruct H as (Hin & Hs & _). split; [done|]. intros Hall.
    rewrite Forall_forall in Hall. by destruct (Hall best Hin).
  - intros best total E. rewrite E in H.
    destruct H as (?&?&?&?&?). by repeat split.
Qed.

(** X24.  Free shipping never wins: as soon as one completed variant has a
    shipping fee strictly between 0 and 999, the best variant of
    [analyzedData] has a fee that is neither missing nor zero. *)
Theorem analyzedData_skips_free_shipping variants v q :
  v ∈ variants -> ImageVariant.status v = completed ->
  ImageVariant.detectedShipping v = Some q -> 0 < q -> q < 999 ->
  exists best total q',
    analyzedData variants = Some (best, total) /\
    ImageVariant.detectedShipping best = Some q' /\
    ~ q' == 0 /\ q' <= q.
Proof.
  intros Hv Hs Hq H0 H1. pose proof (analyzedData_least variants) as Hb.
  destruct (analyzedData variants) as [[best total]|].
  - destruct Hb as (_ & _ & _ & _ & Hle). rewrite Forall_forall in Hle.
    specialize (Hle v Hv Hs). unfold shippingOr999, orNumber in Hle.
    rewrite Hq in Hle. destruct (Qeq_bool q 0) eqn:Eq0.
    { apply Qeq_bool_eq in Eq0. lra. }
    exists best, total. destruct (ImageVariant.detectedShipping best) as [q'|].
    + exists q'. split; [done|]. split; [done|].
      destruct (Qeq_bool q' 0) eqn:Eq'.
      * lra.
      * split; [|done]. intros Hz. apply Qeq_eq_bool in Hz. congruence.
    + lra.
  - rewrite Forall_forall in Hb. exfalso. by apply (Hb v Hv).
Qed.

Lemma analyzedData_skips_free_shipping_witness :
  exists best total q',
    analyzedData [sampleResult "cloaked-1-0" 0; sampleResult "cloaked-1-1" 49]
    = Some (best, total) /\
    ImageVariant.detectedShipping best = Some q' /\
    ~ q' == 0 /\ q' <= 49.
Proof.
  apply (analyzedData_skips_free_shipping _ (sampleResult "cloaked-1-1" 49));
    [right; left|reflexivity|reflexivity|reflexivity|reflexivity].
Defined.

(** X25.  [handleDownloadBest] never rejects and saves at most one file: the
    image of the best variant, under a name that ends in [.jpg] whatever the
    export format of that variant; without a completed variant it does
    nothing. *)
Theorem handleDownloadBest_jpg variants env st :
  exists st',
    handleDownloadBest variants env st = (Resolved tt, st') /\
    objectStore st' = objectStore st /\
    match analyzedData variants with
    | Some (best, _) =>
        exists name,
          JsString.endsWith name ".jpg" /\
          trace st' = trace st ++
                      (if hasUrl best
                       then [Download (ImageVariant.dataUrl best) name] else [])
    | None => st' = st
    end.
Proof.
  unfold handleDownloadBest.
  destruct (analyzedData variants) as [[best total]|]; [|by exists st].
  unfold downloadImage, hasUrl.
  destruct (truthy (ImageVariant.dataUrl best)); eexists;
    (split; [reflexivity|]); (split; [done|]);
    exists ("optimized-master-" +:+ shortId best +:+ ".jpg");
    (split; [exists ("optimized-master-" +:+ shortId best);
             by rewrite append_assoc|]).
  - done.
  - simpl. by rewrite app_nil_r.
Qed.

(** ** Export *)





(** X28.  [downloadBatchSequentially] does nothing at all, whatever its
    options, when there is no batch or when a download is under way. *)
Theorem downloadBatchSequentially_guard env st c onClearHistory :
  Synthesizer.lastBatch c = [] \/ Synthesizer.isBatchDownloading c = true ->
  downloadBatchSequentially c onClearHistory env st = (Resolved tt, st).
Proof.
  unfold downloadBatchSequentially. intros [-> | ->]; [done|].
  by rewrite orb_true_r.
Qed.

Lemma downloadBatchSequentially_guard_witness :
  downloadBatchSequentially (sampleComponent 3) handleClearHistory
    (sampleEnv 0.25 noFaults) initialState = (Resolved tt, initialState).
Proof.
  apply downloadBatchSequentially_guard. left. reflexivity.
Defined.

(** ** The noise stage of the first revision *)

Lemma noiseLoop1_spec env t : forall fuel i data,
  quietly env (noiseLoop1 fuel t i data)
    (fun out =>
       length out = length data /\
       forall j, (j < i \/ exists k, j = i + 4 * k + 3)%nat ->
                 out !! j = data !! j).
Proof.
  induction fuel as [|fuel IH]; intros i data; cbn [noiseLoop1].
  - by apply quietly_ret.
  - destruct (decide (i < length data)%nat); [|by apply quietly_ret].
    eapply quietly_bind; [apply quietly_Math_random|]. intros r _. cbv zeta.
    eapply quietly_mono; [apply IH|]. intros out [Hlen Hsame]. split.
    + rewrite Hlen. by rewrite !jitterChannel_length.
    + intros j Hj. rewrite Hsame.
      * apply jitter3_others. destruct Hj as [Hj|[k ->]]; lia.
      * destruct Hj as [Hj|[[|k] ->]]; [left; lia|left; lia|].
        right. exists k. lia.
Qed.

(** X29.  In the first revision of [generateVariant] the noise stage never
    rejects, leaves the store alone, keeps the number of bytes and, whatever
    the intensity, keeps every alpha byte. *)
Theorem noiseStage1_keeps_alpha env options data :
  quietly env (noiseStage1 options data)
    (fun out =>
       length out = length data /\
       forall k, out !! (4 * k + 3)%nat = data !! (4 * k + 3)%nat).
Proof.
  unfold noiseStage1.
  destruct (Options.textureIntensity options) as [t|]; [|by apply quietly_ret].
  destruct (Qlt_le_dec 0 t); [|by apply quietly_ret].
  eapply quietly_mono; [apply noiseLoop1_spec|].
  intros out [Hlen Hsame]. split; [done|]. intros k. apply Hsame.
  right. exists k. lia.
Qed.

(** X30.  In the first revision of [generateVariant] the noise stage is
    skipped when the texture intensity is absent, zero or negative: the bytes
    are returned as they are and no random number is drawn. *)
Theorem noiseStage1_skipped env st options data :
  (forall t, Options.textureIntensity options = Some t -> t <= 0) ->
  noiseStage1 options data env st = (Resolved data, st).
Proof.
  intros Ht. unfold noiseStage1.
  destruct (Options.textureIntensity options) as [t|]; [|done].
  destruct (Qlt_le_dec 0 t) as [Hpos|]; [|done].
  specialize (Ht t eq_refl). lra.
Qed.

Lemma noiseStage1_skipped_witness :
  noiseStage1 Options.empty [255; 255; 255; 255]%Z (sampleEnv 0.25 noFaults)
    initialState
  = (Resolved [255; 255; 255; 255]%Z, initialState).
Proof.
  apply noiseStage1_skipped. intros t Ht. discriminate Ht.
Defined.

(** ** The further properties on examples *)

Lemma clear_then_read_empty_witness :
  (exists st', (clearAllVariantsFromDB;; getAllVariantsFromDB)
                 (sampleEnv 0.25 noFaults) stockedState
               = (Resolved [], st') /\ objectStore st' = ∅) /\
  (exists st', (clearAllVariantsFromDB;;
                getVariantFromDB "cloaked-1700000000000-0")
                 (sampleEnv 0.25 noFaults) stockedState
               = (Resolved None, st')).
Proof.
  exact (clear_then_read_empty (sampleEnv 0.25 noFaults) stockedState
           "cloaked-1700000000000-0" eq_refl eq_refl).
Defined.

Lemma put_then_get_witness :
  exists st',
    (saveVariantToDB (sampleVariant "cloaked-1700000000000-1" image_jpeg);;
     getVariantFromDB "cloaked-1700000000000-0")
      (sampleEnv 0.25 noFaults) stockedState
    = (Resolved (Some (sampleVariant "cloaked-1700000000000-0" image_png)), st').
Proof.
  destruct (put_then_get (sampleEnv 0.25 noFaults) stockedState
              (sampleVariant "cloaked-1700000000000-1" image_jpeg)
              "cloaked-1700000000000-0" eq_refl eq_refl) as (st' & E).
  exists st'. rewrite E. reflexivity.
Defined.


Lemma put_twice_witness :
  exists st1 st2,
    saveVariantToDB (sampleVariant "cloaked-1700000000000-1" image_jpeg)
      (sampleEnv 0.25 noFaults) stockedState = (Resolved true, st1) /\
    (saveVariantToDB (sampleVariant "cloaked-1700000000000-1" image_jpeg);;
     saveVariantToDB (sampleVariant "cloaked-1700000000000-1" image_jpeg))
      (sampleEnv 0.25 noFaults) stockedState = (Resolved true, st2) /\
    objectStore st2 = objectStore st1.
Proof.
  exact (put_twice (sampleEnv 0.25 noFaults) stockedState
           (sampleVariant "cloaked-1700000000000-1" image_jpeg) eq_refl eq_refl).
Defined.

Lemma generateVariant_without_context_witness :
  exists st',
    generateVariant sampleImage "Saree" "cloaked-1700000000000-0"
      (variantOptions (sampleComponent 1))
      (withoutCanvas (sampleEnv 0.25 noFaults)) stockedState
    = (Rejected CanvasContextMissing, st') /\
    objectStore st' = objectStore stockedState /\
    dbOps st' = dbOps stockedState /\
    drawn st' = drawn stockedState.
Proof.
  exact (generateVariant_without_context sampleImage "Saree"
           "cloaked-1700000000000-0" (variantOptions (sampleComponent 1))
           (withoutCanvas (sampleEnv 0.25 noFaults)) stockedState eq_refl).
Defined.


Lemma generateVariant_font_and_colour_witness :
  unitEntropy (sampleEnv 0.25 noFaults) /\
  exists v st',
    generateVariant sampleImage "Saree" "cloaked-1700000000000-0"
      (variantOptions (sampleComponent 1)) (sampleEnv 0.25 noFaults) initialState
    = (Resolved v, st') /\
    exists font colour,
      OverlayConfig.fontFamily (ImageVariant.config v) = Some font /\
      font ∈ FONTS (sampleEnv 0.25 noFaults) /\
      OverlayConfig.color (ImageVariant.config v) = Some colour /\
      colour ∈ COLORS (sampleEnv 0.25 noFaults).
Proof.
  split; [exact sampleEnv_unitEntropy|].
  eexists _, _. split; [vm_compute; reflexivity|].
  eapply (generateVariant_font_and_colour sampleImage "Saree"
            "cloaked-1700000000000-0" (variantOptions (sampleComponent 1))
            (sampleEnv 0.25 noFaults) initialState);
    [exact sampleEnv_unitEntropy|discriminate|discriminate|].
  vm_compute. reflexivity.
Defined.


Lemma generateVariant_without_cloaking_witness :
  exists v st',
    generateVariant sampleImage "Saree" "cloaked-1700000000000-0" Options.empty
      (sampleEnv 0.25 noFaults) initialState
    = (Resolved v, st') /\
    exists s s' data quality,
      drawn s = drawn initialState /\
      noiseStage Options.empty
        (paintImage (sampleEnv 0.25 noFaults) sampleImage
           (canvasWidth sampleImage Options.empty)
           (canvasHeight sampleImage Options.empty) None)
        (sampleEnv 0.25 noFaults) s = (Resolved data, s') /\
      ImageVariant.dataUrl v
      = encode (sampleEnv 0.25 noFaults)
          (default image_jpeg (Options.exportFormat Options.empty)) quality
          (canvasWidth sampleImage Options.empty)
          (canvasHeight sampleImage Options.empty)
          (paintText (sampleEnv 0.25 noFaults) (ImageVariant.config v) data).
Proof.
  eexists _, _. split; [vm_compute; reflexivity|].
  eapply (generateVariant_without_cloaking sampleImage "Saree"
            "cloaked-1700000000000-0" Options.empty
            (sampleEnv 0.25 noFaults) initialState); [reflexivity|].
  vm_compute. reflexivity.
Defined.



Lemma handleGenerate_batch_persisted_witness :
  allContexts (sampleEnv 0.25 noFaults) /\
  faultless (sampleEnv 0.25 noFaults) /\
  exists vs st',
    handleGenerate (sampleComponent 2) (sampleEnv 0.25 noFaults) stockedState
    = (Resolved tt, st') /\
    delivered (trace st') = delivered (trace stockedState) ++ [vs] /\
    NoDup (ImageVariant.id <$> vs) /\
    (forall v, v ∈ vs -> objectStore st' !! ImageVariant.id v = Some v) /\
    (forall k, k ∉ ImageVariant.id <$> vs ->
       objectStore st' !! k = objectStore stockedState !! k).
Proof.
  assert (allContexts (sampleEnv 0.25 noFaults)) as Hctx by (by intros k).
  assert (faultless (sampleEnv 0.25 noFaults)) as Hf by (by intros k).
  split; [exact Hctx|]. split; [exact Hf|].
  destruct (handleGenerate_batch_persisted (sampleEnv 0.25 noFaults)
              (sampleComponent 2) "data:image/png;base64,AAAA" sampleImage
              eq_refl eq_refl eq_refl eq_refl Hctx Hf stockedState)
    as (vs & st' & all & st'' & E & Hd & Hnd & Hin & Hout & _).
  exists vs, st'. do 4 (split; [assumption|]). exact Hout.
Defined.

Lemma handleGenerate_records_settings_witness :
  allContexts (sampleEnv 0.25 noFaults) /\
  faultless (sampleEnv 0.25 noFaults) /\
  exists vs st',
    handleGenerate (sampleComponent 2) (sampleEnv 0.25 noFaults) initialState
    = (Resolved tt, st') /\
    delivered (trace st') = delivered (trace initialState) ++ [vs] /\
    forall v, v ∈ vs ->
      ImageVariant.status v = pending /\
      ImageVariant.tags v = Some ["Silk"%string] /\
      OverlayConfig.text (ImageVariant.config v) = "Saree"%string.
Proof.
  assert (allContexts (sampleEnv 0.25 noFaults)) as Hctx by (by intros k).
  assert (faultless (sampleEnv 0.25 noFaults)) as Hf by (by intros k).
  split; [exact Hctx|]. split; [exact Hf|].
  destruct (handleGenerate_records_settings (sampleEnv 0.25 noFaults)
              (sampleComponent 2) "data:image/png;base64,AAAA" sampleImage
              eq_refl eq_refl eq_refl eq_refl Hctx Hf initialState)
    as (vs & st' & E & Hd & Hall).
  exists vs, st'. split; [assumption|]. split; [assumption|]. intros v Hv.
  destruct (Hall v Hv) as (H1 & H2 & H3 & _). by repeat split.
Defined.

Lemma handleGenerate_guard_witness :
  handleGenerate (Synthesizer.initial "B-1234") (sampleEnv 0.25 noFaults)
    stockedState
  = (Resolved tt, stockedState).
Proof.
  apply handleGenerate_guard. left. reflexivity.
Defined.

Lemma handleGenerate_image_fails_witness :
  exists st',
    handleGenerate (sampleComponent 3) (withoutImages (sampleEnv 0.25 noFaults))
      stockedState = (Resolved tt, st') /\
    trace st' = trace stockedState
                ++ [SetIsGenerating true; SetProgress 0;
                    ConsoleError ImageLoadFailed; SetIsGenerating false] /\
    objectStore st' = objectStore stockedState /\
    dbOps st' = dbOps stockedState.
Proof.
  exact (handleGenerate_image_fails (withoutImages (sampleEnv 0.25 noFaults))
           (sampleComponent 3) stockedState "data:image/png;base64,AAAA"
           eq_refl eq_refl eq_refl eq_refl).
Defined.

Lemma loadHistory_sorted_witness :
  exists app' st',
    loadHistory App.initial (sampleEnv 0.25 noFaults) stockedState
    = (Resolved app', st') /\
    App.isLoadingHistory app' = false /\
    App.variants app' ≡ₚ (map_to_list (objectStore stockedState)).*2 /\
    StronglySorted newerFirst (App.variants app').
Proof.
  destruct (loadHistory_sorted (sampleEnv 0.25 noFaults) stockedState
              App.initial eq_refl)
    as (app' & st' & E & Hl & _ & _ & _ & Hfull).
  exists app', st'. split; [assumption|]. split; [assumption|].
  apply Hfull. intros Hempty.
  apply (f_equal (fun m => m !! "cloaked-1700000000000-0"%string)) in Hempty.
  vm_compute in Hempty. discriminate Hempty.
Defined.

Lemma loadHistory_read_fails_witness :
  exists st',
    loadHistory App.initial (sampleEnv 0.25 allFail) stockedState
    = (Resolved (App.mk SYNTHESIZER [] false 0), st') /\
    trace st' = trace stockedState ++ [ConsoleError (DbError TransactionFailed)] /\
    objectStore st' = objectStore stockedState.
Proof.
  exact (loadHistory_read_fails (sampleEnv 0.25 allFail) stockedState
           App.initial TransactionFailed eq_refl).
Defined.
